(** * Electron tunnelling through a rectangular barrier: the model of [main.py]

    The development embeds the numerical core of [src/main.py]:
    - [transmission_coefficient] (lines 12-23), the closed-form transmission
      probability of a rectangular barrier;
    - the 2-D grid sweep of [plot_transmission_coefficient] (lines 26-33);
    - the three list comprehensions of [plot_transmission_variations]
      (lines 47, 48, 55, 56, 63, 64).

    Two readings of the arithmetic are given.

    - Module-free part ("exact reading"): Python floats are read as real
      numbers of [Stdlib.Reals], [np.sqrt] as [sqrt], [np.sinh] as [sinh],
      [np.pi] as [PI].  Rounding, overflow, underflow and NaN are outside this
      reading.  It carries the statements that do not depend on them (the
      closed form, the branch that is taken, the sweeps) and the two scenarios
      that the energy deficit does not order.
    - Module [Py] ("IEEE reading"): values are binary64 floats tagged with
      the Python type that carries them ([float] or [numpy.float64]) and every
      operation returns either a value or a Python exception.  libm's [sinh]
      is a parameter.  It carries the statements about raising and about the
      values returned: their range, the widths [w] and [- w], a vanishing
      width, and the inputs at which the bounds of the formula are lost. *)

From Stdlib Require Import Floats.
From Stdlib Require Import Reals Lra Lia List ZArith.
From stdpp Require Import base list option.

Open Scope R_scope.

(** ** Physical constants

    [from scipy.constants import h, m_e, e] (line 4).  The values are those of
    scipy.constants (CODATA 2018): [h] and [e] are exact by the SI definition,
    [m_e] is the recommended value.  Every general theorem below uses only that
    the three constants are strictly positive. *)

Definition h : R := 6.62607015e-34.
Definition m_e : R := 9.1093837015e-31.
Definition e : R := 1.602176634e-19.

(** Lines 9-10. *)
Definition HBAR : R := h / (2 * PI).
Definition ME : R := m_e.

(** ** The transmission model (lines 12-23) *)

Definition transmission_coefficient (V0_ev E_ev width_nm : R) : R :=
  let V0 := V0_ev * e in
  let E := E_ev * e in
  let width := width_nm * 1e-9 in
  if Rlt_dec E V0 then
    let k := sqrt (2 * ME * (V0 - E)) / HBAR in
    let k0 := sqrt (2 * ME * E) / HBAR in
    let T := 1 / (1 + (k ^ 2 / (4 * k0 ^ 2)) * sinh (k * width) ^ 2) in
    T
  else
    1.

(** The closed form as the specification words it: SI conversion first, then
    the rectangular-barrier formula with [hbar = h / (2 pi)]. *)

Definition spec_hbar : R := h / (2 * PI).

Definition spec_closed_form (V0_ev E_ev w_nm : R) : R :=
  let V0_SI := V0_ev * e in
  let E_SI := E_ev * e in
  let w_SI := w_nm * 1e-9 in
  let k := sqrt (2 * m_e * (V0_SI - E_SI)) / spec_hbar in
  let k0 := sqrt (2 * m_e * E_SI) / spec_hbar in
  1 / (1 + (Rsqr k / (4 * Rsqr k0)) * Rsqr (sinh (k * w_SI))).

(** The two wavenumbers of the sub-barrier branch, as functions of the inputs
    in electron-volts (the locals [k] and [k0] of lines 18-19). *)

Definition k_inside (V0_ev E_ev : R) : R :=
  sqrt (2 * ME * (V0_ev * e - E_ev * e)) / HBAR.

Definition k_outside (E_ev : R) : R :=
  sqrt (2 * ME * (E_ev * e)) / HBAR.

(** The term added to 1 in the denominator of line 20. *)

Definition barrier_term (V0_ev E_ev width_nm : R) : R :=
  (k_inside V0_ev E_ev ^ 2 / (4 * k_outside E_ev ^ 2))
  * sinh (k_inside V0_ev E_ev * (width_nm * 1e-9)) ^ 2.

(** ** Sweeps

    [numpy.linspace(start, stop, num)] with its default [endpoint=True]:
    [step = (stop - start) / (num - 1)], the points are [i * step + start] for
    [i] in [arange(0, num)], and the last one is then overwritten by [stop]. *)

Definition linspace (start stop : R) (num : nat) : list R :=
  let div := (num - 1)%nat in
  let step := (stop - start) / INR div in
  let y := map (fun i : nat => INR i * step + start) (seq 0 num) in
  if (1 <? num)%nat then <[div := stop]> y else y.

(** Two-dimensional arrays are lists of rows.  [shape0] and [shape1] are
    [a.shape[0]] and [a.shape[1]]; an index outside the array is the
    [IndexError] of numpy, here [None]. *)

Abbreviation array2 := (list (list R)).

Definition shape0 (a : array2) : nat := length a.

Definition shape1 (a : array2) : nat :=
  match a with
  | [] => 0%nat
  | row :: _ => length row
  end.

Definition getitem (a : array2) (i j : nat) : option R :=
  row ← a !! i; row !! j.

Definition setitem (a : array2) (i j : nat) (v : R) : option array2 :=
  row ← a !! i;
  if decide (j < length row)%nat then Some (<[i := <[j := v]> row]> a) else None.

(** [numpy.meshgrid(x, y)] with its default [indexing='xy']: both results have
    [len(y)] rows and [len(x)] columns, the first repeats [x] in every row, the
    second holds [y[i]] all along row [i]. *)

Definition meshgrid (x y : list R) : array2 * array2 :=
  (map (fun _ => x) y, map (fun yi => map (fun _ => yi) x) y).

Definition zeros_like (a : array2) : array2 := map (map (fun _ => 0)) a.

(** [for i in idx: body], the loop state threaded through the iterations and
    an exception of the body ending the loop. *)

Fixpoint for_each {S : Type} (idx : list nat) (body : nat -> S -> option S)
    (s : S) : option S :=
  match idx with
  | [] => Some s
  | i :: rest => s' ← body i s; for_each rest body s'
  end.

(** Lines 26-33 of [plot_transmission_coefficient]: the value of
    [transmission_map] that is handed to [contourf].  The arguments [V0_ev] and
    [width_nm] are used by the source for the title of the figure only. *)

Definition plot_transmission_coefficient (E_ev V0_ev width_nm : R)
    : option array2 :=
  let V0_range := linspace 0.5 10 100 in
  let width_range := linspace 0.1 2 100 in
  let '(V0_mesh, width_mesh) := meshgrid V0_range width_range in
  let transmission_map := zeros_like V0_mesh in
  for_each (seq 0 (shape0 V0_mesh)) (fun i tm_i =>
    for_each (seq 0 (shape1 V0_mesh)) (fun j tm =>
      V0 ← getitem V0_mesh i j;
      width ← getitem width_mesh i j;
      setitem tm i j (transmission_coefficient V0 E_ev width)) tm_i)
    transmission_map.

(** Lines 47-48, 55-56 and 63-64 of [plot_transmission_variations]: the three
    lists [transmissions], in the order in which the source builds them. *)

Definition plot_transmission_variations (E_ev V0_fixed width_fixed : R)
    : list R * list R * list R :=
  let V0_range := linspace 0.1 10 100 in
  let transmissions1 :=
    map (fun V0 => transmission_coefficient V0 E_ev width_fixed) V0_range in
  let width_range := linspace 0.1 2 100 in
  let transmissions2 :=
    map (fun width => transmission_coefficient V0_fixed E_ev width) width_range in
  let E_range := linspace 0.1 10 100 in
  let transmissions3 :=
    map (fun E_val => transmission_coefficient V0_fixed E_val width_fixed) E_range in
  (transmissions1, transmissions2, transmissions3).

(** The [i]-th of [num] evenly spaced points of [[start, stop]]. *)

Definition grid_point (start stop : R) (num i : nat) : R :=
  start + INR i * ((stop - start) / INR (num - 1)).

(** An array of [rows] rows of [cols] entries each. *)

Definition rectangular (rows cols : nat) (a : array2) : Prop :=
  length a = rows
  /\ forall (i : nat) (row : list R), a !! i = Some row -> length row = cols.

(** The loop invariant of lines 31-33: the array is [rows] by [cols] and the
    cells before [(i, j)] in row-major order hold their final value [cell]. *)

Definition filled_to (rows cols : nat) (cell : nat -> nat -> R)
    (i j : nat) (tm : array2) : Prop :=
  rectangular rows cols tm /\
  forall i' j' : nat, (i' < rows)%nat -> (j' < cols)%nat ->
    (i' < i \/ (i' = i /\ j' < j))%nat ->
    getitem tm i' j' = Some (cell i' j').

(** ** The IEEE reading, with Python's exceptions

    A value is a binary64 float together with the Python type that carries it:
    a built-in [float] or a [numpy.float64].  The type decides what an
    operation does at the edge of the number line.  On two built-in floats,
    [/] raises [ZeroDivisionError] for a zero divisor and [**] raises
    [OverflowError] when a finite base overflows; [*], [+], [-] and [<] never
    raise.  As soon as one operand is a [numpy.float64] the operation is
    numpy's, which returns a [numpy.float64] and, in numpy's default error
    state, signals division by zero, overflow and invalid operations with a
    warning and an infinity or a NaN, never with an exception.  [np.sqrt] and
    [np.sinh] return a [numpy.float64] for either kind of argument.

    [np.sinh] is libm's, for which the kernel has no primitive: it is a
    variable of the section.  The literals [1], [2] and [4] of the source are
    Python integers; in arithmetic with a float they are converted exactly, so
    they are used here as the floats [1.0], [2.0] and [4.0].  A squaring
    [x ** 2] is read as the product [x * x]. *)

Module Py.

Inductive exn : Type :=
  | ZeroDivisionError
  | OverflowError.

Inductive result (A : Type) : Type :=
  | Ok (a : A)
  | Raise (x : exn).

Arguments Ok {A} a.
Arguments Raise {A} x.

Definition bind {A B : Type} (c : result A) (k : A -> result B) : result B :=
  match c with
  | Ok a => k a
  | Raise x => Raise x
  end.

Notation "'let*' x ':=' c 'in' k" := (bind c (fun x => k))
  (at level 10, x name, c at level 100, k at level 200).

Inductive num : Type :=
  | PyFloat (x : float)
  | NpFloat64 (x : float).

Definition val (a : num) : float :=
  match a with
  | PyFloat x => x
  | NpFloat64 x => x
  end.

(** [*], [+], [-]: no exception on floats of either kind. *)
Definition arith (op : float -> float -> float) (a b : num) : num :=
  match a, b with
  | PyFloat x, PyFloat y => PyFloat (op x y)
  | _, _ => NpFloat64 (op (val a) (val b))
  end.

Definition mul : num -> num -> num := arith PrimFloat.mul.
Definition add : num -> num -> num := arith PrimFloat.add.
Definition sub : num -> num -> num := arith PrimFloat.sub.

(** [a / b]. *)
Definition truediv (a b : num) : result num :=
  match a, b with
  | PyFloat x, PyFloat y =>
      if PrimFloat.is_zero y then Raise ZeroDivisionError
      else Ok (PyFloat (PrimFloat.div x y))
  | _, _ => Ok (NpFloat64 (PrimFloat.div (val a) (val b)))
  end.

(** [a ** 2]. *)
Definition pow2 (a : num) : result num :=
  match a with
  | PyFloat x =>
      if PrimFloat.is_finite x && PrimFloat.is_infinity (PrimFloat.mul x x)
      then Raise OverflowError
      else Ok (PyFloat (PrimFloat.mul x x))
  | NpFloat64 x => Ok (NpFloat64 (PrimFloat.mul x x))
  end.

(** [a < b]; false as soon as one side is a NaN. *)
Definition lt (a b : num) : bool := PrimFloat.ltb (val a) (val b).

Definition np_sqrt (a : num) : num := NpFloat64 (PrimFloat.sqrt (val a)).

#[local] Set Warnings "-inexact-float".

(** Line 4, and [np.pi]. *)
Definition h : float := 6.62607015e-34%float.
Definition m_e : float := 9.1093837015e-31%float.
Definition e : float := 1.602176634e-19%float.
Definition pi : float := 3.141592653589793%float.

(** Lines 9-10, evaluated once when the module is loaded. *)
Definition HBAR : float := (h / (2 * pi))%float.
Definition ME : float := m_e.

Section Libm.

Variable sinh : float -> float.

Definition np_sinh (a : num) : num := NpFloat64 (sinh (val a)).

(** Lines 12-23. *)
Definition transmission_coefficient (V0_ev E_ev width_nm : num) : result num :=
  let V0 := mul V0_ev (PyFloat e) in
  let E := mul E_ev (PyFloat e) in
  let width := mul width_nm (PyFloat 1e-9) in
  if lt E V0 then
    let* k := truediv (np_sqrt (mul (mul (PyFloat 2) (PyFloat ME)) (sub V0 E)))
                      (PyFloat HBAR) in
    let* k0 := truediv (np_sqrt (mul (mul (PyFloat 2) (PyFloat ME)) E))
                       (PyFloat HBAR) in
    let* k_sq := pow2 k in
    let* k0_sq := pow2 k0 in
    let* ratio := truediv k_sq (mul (PyFloat 4) k0_sq) in
    let* sinh_sq := pow2 (np_sinh (mul k width)) in
    let* T := truediv (PyFloat 1) (add (PyFloat 1) (mul ratio sinh_sq)) in
    Ok T
  else
    Ok (PyFloat 1).

End Libm.

#[local] Set Warnings "+inexact-float".

End Py.

(** Classes of binary64 values, on their [spec_float] image: the infinities and
    NaN, which absorb the arithmetic of line 20, and the zeros and NaN, which
    are what is left of them after the final division. *)

Definition inf_or_nan (f : spec_float) : Prop :=
  f = S754_nan \/ exists s : bool, f = S754_infinity s.

Definition zero_or_nan (f : spec_float) : Prop :=
  f = S754_nan \/ exists s : bool, f = S754_zero s.

(** The floats that the sub-barrier branch computes on lines 18-20, as
    functions of the binary64 values of the three arguments: the wavenumbers
    [k] and [k0], the prefactor [k ** 2 / (4 * k0 ** 2)] and the value [T]. *)

Definition ieee_k (V0_ev E_ev : float) : float :=
  (PrimFloat.sqrt (2 * Py.ME * (V0_ev * Py.e - E_ev * Py.e)) / Py.HBAR)%float.

Definition ieee_k0 (E_ev : float) : float :=
  (PrimFloat.sqrt (2 * Py.ME * (E_ev * Py.e)) / Py.HBAR)%float.

Definition ieee_prefactor (V0_ev E_ev : float) : float :=
  (ieee_k V0_ev E_ev * ieee_k V0_ev E_ev
   / (4 * (ieee_k0 E_ev * ieee_k0 E_ev)))%float.

#[local] Set Warnings "-inexact-float".

Definition ieee_T (sinh : float -> float) (V0_ev E_ev width_nm : float) : float :=
  let s := sinh (ieee_k V0_ev E_ev * (width_nm * 1e-9))%float in
  (1 / (1 + ieee_prefactor V0_ev E_ev * (s * s)))%float.

#[local] Set Warnings "+inexact-float".

(** The argument [-w] of a call, for a width [w] of either Python type. *)

Definition py_neg (a : Py.num) : Py.num :=
  match a with
  | Py.PyFloat x => Py.PyFloat (- x)
  | Py.NpFloat64 x => Py.NpFloat64 (- x)
  end.

(** A binary64 value that is a NaN or lies in the closed interval [0, 1]. *)

Definition unit_or_nan (t : float) : Prop :=
  PrimFloat.is_nan t = true
  \/ ((0 <=? t)%float = true /\ (t <=? 1)%float = true).

(** The values whose sign bit is clear, and NaN. *)

Definition nonneg_or_nan (f : spec_float) : Prop :=
  match f with
  | S754_nan => True
  | S754_zero s | S754_infinity s | S754_finite s _ _ => s = false
  end.

(** The values that are at least one, and the values between zero and one, on
    the canonical mantissa and exponent that [Prim2SF] returns: one is
    [2 ^ 52 * 2 ^ (-52)]. *)

Definition at_least_one (f : spec_float) : Prop :=
  match f with
  | S754_infinity false => True
  | S754_finite false m ex =>
      (-52 < ex)%Z \/ (ex = (-52)%Z /\ (2 ^ 52 <= Z.pos m)%Z)
  | _ => False
  end.

Definition at_most_one (f : spec_float) : Prop :=
  match f with
  | S754_zero _ => True
  | S754_finite false m ex =>
      (ex < -52)%Z \/ (ex = (-52)%Z /\ (Z.pos m <= 2 ^ 52)%Z)
  | _ => False
  end.

(** The zeros and the finite values. *)

Definition finite_or_zero (f : spec_float) : Prop :=
  match f with
  | S754_zero _ | S754_finite _ _ _ => True
  | S754_nan | S754_infinity _ => False
  end.

(** The values that are not strictly positive: NaN, the zeros and everything of
    negative sign. *)

Definition nonpos_or_nan (f : spec_float) : Prop :=
  match f with
  | S754_nan | S754_zero _ => True
  | S754_infinity s | S754_finite s _ _ => s = true
  end.

(** The strictly positive finite values. *)

Definition pos_finite (x : float) : Prop :=
  exists (m : positive) (ex : Z), Prim2SF x = S754_finite false m ex.

(** * Properties *)

(** ** Basic facts about the constants *)

Lemma h_pos : 0 < h.
Proof. unfold h; lra. Qed.

Lemma m_e_pos : 0 < m_e.
Proof. unfold m_e; lra. Qed.

Lemma e_pos : 0 < e.
Proof. unfold e; lra. Qed.

Lemma ME_pos : 0 < ME.
Proof. exact m_e_pos. Qed.

Lemma HBAR_pos : 0 < HBAR.
Proof.
  unfold HBAR. apply Rdiv_lt_0_compat; [exact h_pos|].
  generalize PI_RGT_0; lra.
Qed.

Lemma nm_pos : 0 < 1e-9.
Proof. lra. Qed.

Create HintDb tunnel.

#[local] Hint Resolve h_pos m_e_pos e_pos ME_pos HBAR_pos nm_pos : tunnel.

(** Brings the signs of the constants into the context, for [lra] and [nra]. *)
Ltac constants_pos :=
  pose proof ME_pos; pose proof e_pos; pose proof HBAR_pos.

(** ** Which branch is taken *)

Lemma SI_lt (V0_ev E_ev : R) : E_ev < V0_ev -> E_ev * e < V0_ev * e.
Proof. intros Hlt. apply Rmult_lt_compat_r; auto with tunnel. Qed.

Lemma SI_ge (V0_ev E_ev : R) : V0_ev <= E_ev -> ~ E_ev * e < V0_ev * e.
Proof.
  intros Hle Hlt. apply Rmult_lt_reg_r in Hlt; auto with tunnel. lra.
Qed.

Lemma transmission_above (V0_ev E_ev width_nm : R) :
  V0_ev <= E_ev -> transmission_coefficient V0_ev E_ev width_nm = 1.
Proof.
  intros Hle. unfold transmission_coefficient.
  destruct (Rlt_dec (E_ev * e) (V0_ev * e)) as [Hlt|_]; [|reflexivity].
  exfalso. exact (SI_ge _ _ Hle Hlt).
Qed.

Lemma transmission_below (V0_ev E_ev width_nm : R) :
  E_ev < V0_ev ->
  transmission_coefficient V0_ev E_ev width_nm =
  1 / (1 + (k_inside V0_ev E_ev ^ 2 / (4 * k_outside E_ev ^ 2))
           * sinh (k_inside V0_ev E_ev * (width_nm * 1e-9)) ^ 2).
Proof.
  intros Hlt. unfold transmission_coefficient, k_inside, k_outside.
  destruct (Rlt_dec (E_ev * e) (V0_ev * e)) as [_|Hn]; [reflexivity|].
  exfalso. apply Hn. exact (SI_lt _ _ Hlt).
Qed.

(** ** The hyperbolic sine *)

Lemma sinh_pos (x : R) : 0 < x -> 0 < sinh x.
Proof. intros Hx. rewrite <- sinh_0. now apply sinh_lt. Qed.

Lemma sinh_odd (x : R) : sinh (- x) = - sinh x.
Proof. unfold sinh. rewrite Ropp_involutive. lra. Qed.

Lemma sinh_sq_pos (x : R) : x <> 0 -> 0 < sinh x ^ 2.
Proof.
  intros Hx. destruct (Rtotal_order x 0) as [Hn|[->|Hp]]; [|contradiction|].
  - assert (Hs : 0 < sinh (- x)) by (apply sinh_pos; lra).
    rewrite sinh_odd in Hs. nra.
  - pose proof (sinh_pos x Hp). nra.
Qed.

(** ** The two wavenumbers *)

Lemma k_inside_sq (V0_ev E_ev : R) :
  E_ev <= V0_ev ->
  k_inside V0_ev E_ev ^ 2 = 2 * ME * ((V0_ev - E_ev) * e) / HBAR ^ 2.
Proof.
  intros Hle. constants_pos.
  unfold k_inside.
  replace (V0_ev * e - E_ev * e) with ((V0_ev - E_ev) * e) by ring.
  assert (Harg : 0 <= 2 * ME * ((V0_ev - E_ev) * e)).
  { apply Rmult_le_pos; [lra|]. apply Rmult_le_pos; lra. }
  replace ((sqrt (2 * ME * ((V0_ev - E_ev) * e)) / HBAR) ^ 2)
    with (sqrt (2 * ME * ((V0_ev - E_ev) * e))
          * sqrt (2 * ME * ((V0_ev - E_ev) * e)) / HBAR ^ 2)
    by (field; lra).
  now rewrite sqrt_sqrt.
Qed.

Lemma k_outside_sq (E_ev : R) :
  0 <= E_ev -> k_outside E_ev ^ 2 = 2 * ME * (E_ev * e) / HBAR ^ 2.
Proof.
  intros Hle. constants_pos.
  unfold k_outside.
  assert (Harg : 0 <= 2 * ME * (E_ev * e)).
  { apply Rmult_le_pos; [lra|]. apply Rmult_le_pos; lra. }
  replace ((sqrt (2 * ME * (E_ev * e)) / HBAR) ^ 2)
    with (sqrt (2 * ME * (E_ev * e)) * sqrt (2 * ME * (E_ev * e)) / HBAR ^ 2)
    by (field; lra).
  now rewrite sqrt_sqrt.
Qed.

Lemma k_inside_pos (V0_ev E_ev : R) : E_ev < V0_ev -> 0 < k_inside V0_ev E_ev.
Proof.
  intros Hlt. constants_pos.
  unfold k_inside. apply Rdiv_lt_0_compat; [|assumption].
  apply sqrt_lt_R0.
  replace (V0_ev * e - E_ev * e) with ((V0_ev - E_ev) * e) by ring.
  apply Rmult_lt_0_compat; [lra|]. apply Rmult_lt_0_compat; lra.
Qed.

(** In the sub-barrier branch the prefactor [k^2 / (4 k0^2)] is the ratio of
    the energy deficit to four times the electron energy. *)

Lemma prefactor_eq (V0_ev E_ev : R) :
  0 < E_ev -> E_ev < V0_ev ->
  k_inside V0_ev E_ev ^ 2 / (4 * k_outside E_ev ^ 2)
  = (V0_ev - E_ev) / (4 * E_ev).
Proof.
  intros HE Hlt. constants_pos.
  rewrite k_inside_sq, k_outside_sq by lra.
  field. repeat split; lra.
Qed.

Lemma prefactor_pos (V0_ev E_ev : R) :
  0 < E_ev -> E_ev < V0_ev ->
  0 < k_inside V0_ev E_ev ^ 2 / (4 * k_outside E_ev ^ 2).
Proof.
  intros HE Hlt. rewrite prefactor_eq by assumption.
  apply Rdiv_lt_0_compat; lra.
Qed.

Lemma transmission_term (V0_ev E_ev width_nm : R) :
  E_ev < V0_ev ->
  transmission_coefficient V0_ev E_ev width_nm
  = 1 / (1 + barrier_term V0_ev E_ev width_nm).
Proof. intros Hlt. now rewrite transmission_below. Qed.

Lemma barrier_term_0 (V0_ev E_ev : R) : barrier_term V0_ev E_ev 0 = 0.
Proof.
  unfold barrier_term. rewrite Rmult_0_l, Rmult_0_r, sinh_0. ring.
Qed.

Lemma barrier_term_pos (V0_ev E_ev width_nm : R) :
  0 < E_ev -> E_ev < V0_ev -> width_nm <> 0 ->
  0 < barrier_term V0_ev E_ev width_nm.
Proof.
  intros HE Hlt Hw. unfold barrier_term.
  apply Rmult_lt_0_compat; [now apply prefactor_pos|].
  apply sinh_sq_pos. pose proof (k_inside_pos _ _ Hlt). nra.
Qed.

Lemma barrier_term_nonneg (V0_ev E_ev width_nm : R) :
  0 < E_ev -> E_ev < V0_ev -> 0 <= barrier_term V0_ev E_ev width_nm.
Proof.
  intros HE Hlt. destruct (Req_dec width_nm 0) as [->|Hw].
  - rewrite barrier_term_0. lra.
  - left. now apply barrier_term_pos.
Qed.

Lemma unit_frac_decr (x y : R) : 0 <= x -> x < y -> 1 / (1 + y) < 1 / (1 + x).
Proof.
  intros Hx Hxy. unfold Rdiv. rewrite !Rmult_1_l.
  apply Rinv_lt_contravar; [|lra].
  apply Rmult_lt_0_compat; lra.
Qed.

(** ** The transmission model: the two branches *)



(** C2. For a barrier height [V0 > 0], an electron energy [E >= V0] and a
    width [w > 0] the result is exactly 1; in particular in the boundary
    scenario [V0 = 1], [E = 1], [w = 1], where the IEEE reading returns the
    Python float [1.0] as well. *)
Theorem transmission_above_barrier_is_one :
  (forall V0_ev E_ev width_nm : R,
      0 < V0_ev -> V0_ev <= E_ev -> 0 < width_nm ->
      transmission_coefficient V0_ev E_ev width_nm = 1)
  /\ transmission_coefficient 1 1 1 = 1
  /\ (forall sinh : float -> float,
        Py.transmission_coefficient sinh
          (Py.PyFloat 1) (Py.PyFloat 1) (Py.PyFloat 1)
        = Py.Ok (Py.PyFloat 1)).
Proof.
  split; [|split].
  - intros V0_ev E_ev width_nm _ Hle _. now apply transmission_above.
  - apply transmission_above. lra.
  - intros sinh. reflexivity.
Qed.

Lemma transmission_above_barrier_is_one_witness :
  transmission_coefficient 2 3 (1 / 2) = 1.
Proof. apply (proj1 transmission_above_barrier_is_one); lra. Defined.

(** C10. Whenever [E >= V0] the result does not depend on the width: for any
    two widths, zero and negative ones included, both results are 1. *)
Theorem transmission_above_barrier_ignores_width (V0_ev E_ev w1 w2 : R) :
  V0_ev <= E_ev ->
  transmission_coefficient V0_ev E_ev w1 = transmission_coefficient V0_ev E_ev w2
  /\ transmission_coefficient V0_ev E_ev w1 = 1.
Proof.
  intros Hle. rewrite !transmission_above by assumption. split; reflexivity.
Qed.

Lemma transmission_above_barrier_ignores_width_witness :
  transmission_coefficient (-1) 0 (-3) = transmission_coefficient (-1) 0 0
  /\ transmission_coefficient (-1) 0 (-3) = 1.
Proof. apply transmission_above_barrier_ignores_width; lra. Defined.

(** *** The deficit alone does not order the transmissions *)

Lemma sinh_double_sq (x : R) :
  sinh (2 * x) ^ 2 = 4 * sinh x ^ 2 * (1 + sinh x ^ 2).
Proof.
  unfold sinh.
  replace (2 * x) with (x + x) by ring.
  replace (- (x + x)) with (- x + - x) by ring.
  rewrite !exp_plus.
  assert (Hab : exp x * exp (- x) = 1).
  { rewrite <- exp_plus, Rplus_opp_r. apply exp_0. }
  set (a := exp x) in *. set (b := exp (- x)) in *.
  apply Rminus_diag_uniq.
  replace (((a * a - b * b) / 2) ^ 2
           - 4 * ((a - b) / 2) ^ 2 * (1 + ((a - b) / 2) ^ 2))
    with ((a - b) ^ 2 * (a * b - 1)) by field.
  rewrite Hab. ring.
Qed.

Lemma sinh_le_unit (x : R) : 0 <= x -> x <= 1 -> 0 <= sinh x <= 3 / 2.
Proof.
  intros H0 H1. split.
  - destruct H0 as [H0| <-]; [left; now apply sinh_pos|rewrite sinh_0; lra].
  - apply Rle_trans with (sinh 1).
    + destruct H1 as [H1| ->]; [left; now apply sinh_lt|lra].
    + unfold sinh. pose proof exp_le_3. pose proof (exp_pos (Ropp 1)). lra.
Qed.

Lemma k_inside_double (V0a Ea V0b Eb : R) :
  0 <= V0a - Ea -> V0b - Eb = 4 * (V0a - Ea) ->
  k_inside V0b Eb = 2 * k_inside V0a Ea.
Proof.
  intros H0 H4. constants_pos.
  unfold k_inside.
  replace (V0b * e - Eb * e) with ((V0b - Eb) * e) by ring.
  replace (V0a * e - Ea * e) with ((V0a - Ea) * e) by ring.
  rewrite H4.
  replace (2 * ME * (4 * (V0a - Ea) * e))
    with (2 * 2 * (2 * ME * ((V0a - Ea) * e))) by ring.
  rewrite sqrt_mult_alt by lra.
  rewrite sqrt_square by lra.
  field. lra.
Qed.

Lemma HBAR_lower : h / 8 <= HBAR.
Proof.
  unfold HBAR. pose proof h_pos. pose proof PI_RGT_0. pose proof PI_4.
  unfold Rdiv. apply Rmult_le_compat_l; [lra|].
  apply Rinv_le_contravar; lra.
Qed.

Lemma k_inside_half_to_tenth : k_inside 0.5 0.1 <= 1e10.
Proof.
  pose proof HBAR_pos as HH. pose proof HBAR_lower as HL.
  unfold k_inside.
  apply Rmult_le_reg_r with HBAR; [assumption|].
  unfold Rdiv. rewrite Rmult_assoc, Rinv_l, Rmult_1_r by lra.
  apply Rle_trans with (1e10 * (h / 8)); [|apply Rmult_le_compat_l; lra].
  rewrite <- (sqrt_square (1e10 * (h / 8))) by (unfold h; lra).
  apply sqrt_le_1_alt. unfold ME, m_e, e, h. lra.
Qed.


(** ** Evenly spaced points *)

Lemma linspace_length (start stop : R) (num : nat) :
  length (linspace start stop num) = num.
Proof.
  unfold linspace. destruct (1 <? num)%nat.
  - now rewrite length_insert, length_map, length_seq.
  - now rewrite length_map, length_seq.
Qed.

Lemma linspace_lookup (start stop : R) (num i : nat) :
  (1 < num)%nat -> (i < num)%nat ->
  linspace start stop num !! i = Some (grid_point start stop num i).
Proof.
  intros Hnum Hi. unfold linspace, grid_point.
  apply Nat.ltb_lt in Hnum as Hb. rewrite Hb.
  destruct (decide (i = (num - 1)%nat)) as [->|Hne].
  - rewrite list_lookup_insert_eq by (rewrite length_map, length_seq; lia).
    f_equal. field. apply not_0_INR. lia.
  - rewrite list_lookup_insert_ne by congruence.
    rewrite list_lookup_fmap, lookup_seq_lt by assumption.
    simpl. f_equal. ring.
Qed.

(** ** Arrays *)

Lemma getitem_setitem (a a' : array2) (i j i' j' : nat) (v : R) :
  setitem a i j v = Some a' ->
  getitem a' i' j'
  = if decide (i' = i /\ j' = j) then Some v else getitem a i' j'.
Proof.
  unfold setitem, getitem. intros Hset.
  destruct (a !! i) as [row|] eqn:Hrow; simpl in Hset; [|discriminate].
  destruct (decide (j < length row)%nat) as [Hj|]; [|discriminate].
  injection Hset as <-.
  assert (Hi : (i < length a)%nat) by (eapply lookup_lt_Some; eassumption).
  destruct (decide (i' = i)) as [->|Hi'].
  - rewrite list_lookup_insert_eq by assumption. simpl.
    rewrite Hrow. simpl.
    destruct (decide (j' = j)) as [->|Hj'].
    + rewrite list_lookup_insert_eq by assumption.
      now rewrite decide_True by auto.
    + rewrite list_lookup_insert_ne by congruence.
      now rewrite decide_False by tauto.
  - rewrite list_lookup_insert_ne by congruence.
    now rewrite decide_False by tauto.
Qed.

Lemma setitem_rectangular (rows cols : nat) (a : array2) (i j : nat) (v : R) :
  rectangular rows cols a -> (i < rows)%nat -> (j < cols)%nat ->
  exists a' : array2, setitem a i j v = Some a' /\ rectangular rows cols a'.
Proof.
  intros [Hlen Hrows] Hi Hj. unfold setitem.
  destruct (lookup_lt_is_Some_2 a i) as [row Hrow]; [lia|].
  rewrite Hrow. simpl. pose proof (Hrows _ _ Hrow) as Hc.
  rewrite decide_True by lia.
  eexists; split; [reflexivity|]. split.
  - now rewrite length_insert.
  - intros i' row' Hrow'.
    destruct (decide (i' = i)) as [->|Hne].
    + rewrite list_lookup_insert_eq in Hrow' by lia.
      injection Hrow' as <-. now rewrite length_insert.
    + rewrite list_lookup_insert_ne in Hrow' by congruence. eauto.
Qed.

Lemma zeros_like_rectangular (rows cols : nat) (a : array2) :
  rectangular rows cols a -> rectangular rows cols (zeros_like a).
Proof.
  intros [Hlen Hrows]. unfold zeros_like. split.
  - now rewrite length_map.
  - intros i row Hrow. rewrite list_lookup_fmap in Hrow.
    destruct (a !! i) as [row0|] eqn:H0; simpl in Hrow; [|discriminate].
    injection Hrow as <-. rewrite length_map. eauto.
Qed.

Lemma meshgrid_fst (x y : list R) (i j : nat) :
  (i < length y)%nat -> getitem (meshgrid x y).1 i j = x !! j.
Proof.
  intros Hi. unfold getitem, meshgrid. simpl.
  rewrite list_lookup_fmap.
  destruct (lookup_lt_is_Some_2 y i Hi) as [yi ->]. reflexivity.
Qed.

Lemma meshgrid_snd (x y : list R) (i j : nat) :
  (j < length x)%nat -> getitem (meshgrid x y).2 i j = y !! i.
Proof.
  intros Hj. unfold getitem, meshgrid. simpl.
  rewrite list_lookup_fmap.
  destruct (y !! i) as [yi|]; simpl; [|reflexivity].
  rewrite list_lookup_fmap.
  destruct (lookup_lt_is_Some_2 x j Hj) as [xj ->]. reflexivity.
Qed.

Lemma meshgrid_fst_rectangular (x y : list R) :
  rectangular (length y) (length x) (meshgrid x y).1.
Proof.
  unfold meshgrid. simpl. split.
  - now rewrite length_map.
  - intros i row Hrow. rewrite list_lookup_fmap in Hrow.
    destruct (y !! i); simpl in Hrow; [|discriminate].
    now injection Hrow as <-.
Qed.

Lemma meshgrid_fst_shape1 (x y : list R) :
  y <> [] -> shape1 (meshgrid x y).1 = length x.
Proof. intros Hy. destruct y; [contradiction|reflexivity]. Qed.

(** ** Loops *)

Lemma for_each_seq_rule {S : Type} (P : nat -> S -> Prop)
    (body : nat -> S -> option S) (n a : nat) (s : S) :
  P a s ->
  (forall (i : nat) (s0 : S), (a <= i < a + n)%nat -> P i s0 ->
     exists s1 : S, body i s0 = Some s1 /\ P (Datatypes.S i) s1) ->
  exists s' : S, for_each (seq a n) body s = Some s' /\ P (a + n)%nat s'.
Proof.
  revert a s. induction n as [|n IH]; intros a s Hs Hstep.
  - exists s. rewrite Nat.add_0_r. now split.
  - simpl. destruct (Hstep a s) as (s1 & -> & Hs1); [lia|assumption|].
    simpl. destruct (IH (Datatypes.S a) s1) as (s' & Hrun & Hs'); [assumption| |].
    + intros i s0 Hi. apply Hstep. lia.
    + exists s'. split; [assumption|].
      now replace (a + Datatypes.S n)%nat with (Datatypes.S a + n)%nat by lia.
Qed.

Section Fill.

Variables rows cols : nat.
Variable cell : nat -> nat -> R.
Variable body : nat -> nat -> array2 -> option array2.

Hypothesis body_sets :
  forall (i j : nat) (tm : array2), (i < rows)%nat -> (j < cols)%nat ->
    body i j tm = setitem tm i j (cell i j).

Lemma fill_cell (i j : nat) (tm : array2) :
  (i < rows)%nat -> (j < cols)%nat -> filled_to rows cols cell i j tm ->
  exists tm' : array2, body i j tm = Some tm' /\ filled_to rows cols cell i (Datatypes.S j) tm'.
Proof.
  intros Hi Hj [Hrect Hcells]. rewrite body_sets by assumption.
  destruct (setitem_rectangular rows cols tm i j (cell i j) Hrect Hi Hj)
    as (tm' & Hset & Hrect').
  exists tm'. split; [assumption|]. split; [assumption|].
  intros i' j' Hi' Hj' Hbefore.
  rewrite (getitem_setitem _ _ _ _ _ _ _ Hset).
  destruct (decide (i' = i /\ j' = j)) as [[-> ->]|Hne]; [reflexivity|].
  apply Hcells; try assumption. lia.
Qed.

Lemma fill_row (i : nat) (tm : array2) :
  (i < rows)%nat -> filled_to rows cols cell i 0 tm ->
  exists tm' : array2,
    for_each (seq 0 cols) (fun j tm0 => body i j tm0) tm = Some tm'
    /\ filled_to rows cols cell (Datatypes.S i) 0 tm'.
Proof.
  intros Hi Hstart.
  destruct (for_each_seq_rule (fun j => filled_to rows cols cell i j)
              (fun j tm0 => body i j tm0) cols 0 tm Hstart)
    as (tm' & Hrun & [Hrect Hcells]).
  { intros j tm0 Hj. apply fill_cell; lia. }
  exists tm'. split; [assumption|]. split; [assumption|].
  intros i' j' Hi' Hj' Hbefore. apply Hcells; try assumption.
  simpl. lia.
Qed.

Lemma fill_all (tm0 : array2) :
  rectangular rows cols tm0 ->
  exists tm : array2,
    for_each (seq 0 rows)
      (fun i tm_i => for_each (seq 0 cols) (fun j tm1 => body i j tm1) tm_i) tm0
    = Some tm
    /\ rectangular rows cols tm
    /\ forall i j : nat, (i < rows)%nat -> (j < cols)%nat ->
         getitem tm i j = Some (cell i j).
Proof.
  intros Hrect.
  destruct (for_each_seq_rule (fun i => filled_to rows cols cell i 0)
              (fun i tm_i =>
                 for_each (seq 0 cols) (fun j tm1 => body i j tm1) tm_i)
              rows 0 tm0)
    as (tm & Hrun & [Hrect' Hcells]).
  { split; [assumption|]. intros i' j' _ _ Hbefore. lia. }
  { intros i tm_i Hi. apply fill_row. lia. }
  exists tm. split; [assumption|]. split; [assumption|].
  intros i j Hi Hj. apply Hcells; try assumption. simpl. lia.
Qed.

End Fill.

(** ** The 2-D grid sweep *)

(** C5. The grid sweep returns a 100 x 100 matrix, and its cell [(i, j)] is
    [transmission_coefficient] called on the cell's own height, the [j]-th of
    the 100 evenly spaced points of [0.5, 10], and the cell's own width, the
    [i]-th of the 100 evenly spaced points of [0.1, 2], with the electron
    energy of the caller: rows follow the width and columns the height. *)
Theorem grid_sweep_is_pointwise (E_ev V0_ev width_nm : R) :
  exists tm : array2,
    plot_transmission_coefficient E_ev V0_ev width_nm = Some tm
    /\ rectangular 100 100 tm
    /\ forall i j : nat, (i < 100)%nat -> (j < 100)%nat ->
         exists V0 width : R,
           linspace 0.5 10 100 !! j = Some V0
           /\ V0 = grid_point 0.5 10 100 j
           /\ linspace 0.1 2 100 !! i = Some width
           /\ width = grid_point 0.1 2 100 i
           /\ getitem tm i j = Some (transmission_coefficient V0 E_ev width).
Proof.
  unfold plot_transmission_coefficient.
  set (V0_range := linspace 0.5 10 100).
  set (width_range := linspace 0.1 2 100).
  assert (HlenV : length V0_range = 100%nat) by apply linspace_length.
  assert (HlenW : length width_range = 100%nat) by apply linspace_length.
  destruct (meshgrid V0_range width_range) as [V0_mesh width_mesh] eqn:Hmesh.
  assert (HV : V0_mesh = (meshgrid V0_range width_range).1) by now rewrite Hmesh.
  assert (HW : width_mesh = (meshgrid V0_range width_range).2) by now rewrite Hmesh.
  assert (Hrect : rectangular 100 100 V0_mesh).
  { rewrite HV, <- HlenW at 1. rewrite <- HlenV at 1.
    apply meshgrid_fst_rectangular. }
  assert (Hs0 : shape0 V0_mesh = 100%nat) by apply Hrect.
  assert (Hs1 : shape1 V0_mesh = 100%nat).
  { rewrite HV, meshgrid_fst_shape1; [assumption|].
    intros Hnil. rewrite Hnil in HlenW. discriminate. }
  rewrite Hs0, Hs1.
  set (cell := fun i j : nat =>
         transmission_coefficient (grid_point 0.5 10 100 j) E_ev
           (grid_point 0.1 2 100 i)).
  destruct (fill_all 100 100 cell
              (fun i j tm =>
                 V0 ← getitem V0_mesh i j;
                 width ← getitem width_mesh i j;
                 setitem tm i j (transmission_coefficient V0 E_ev width))
              ) with (tm0 := zeros_like V0_mesh)
    as (tm & Hrun & Hrect' & Hcells).
  { intros i j tm Hi Hj.
    rewrite HV, meshgrid_fst by lia. rewrite HW, meshgrid_snd by lia.
    unfold V0_range, width_range.
    rewrite !linspace_lookup by lia. reflexivity. }
  { now apply zeros_like_rectangular. }
  exists tm. split; [exact Hrun|]. split; [exact Hrect'|].
  intros i j Hi Hj.
  exists (grid_point 0.5 10 100 j), (grid_point 0.1 2 100 i).
  unfold V0_range, width_range in *.
  rewrite !linspace_lookup by lia.
  repeat split. now apply Hcells.
Qed.

Lemma grid_sweep_is_pointwise_witness :
  exists tm : array2,
    plot_transmission_coefficient 1 2 1 = Some tm
    /\ getitem tm 3 7
       = Some (transmission_coefficient (grid_point 0.5 10 100 7) 1
                 (grid_point 0.1 2 100 3)).
Proof.
  destruct (grid_sweep_is_pointwise 1 2 1) as (tm & Hrun & _ & Hcells).
  exists tm. split; [exact Hrun|].
  destruct (Hcells 3%nat 7%nat) as (V0 & width & _ & -> & _ & -> & Hcell);
    [lia|lia|exact Hcell].
Defined.

(** ** The 1-D sweeps *)

Lemma sweep_lookup (f : R -> R) (start stop : R) (i : nat) :
  (i < 100)%nat ->
  map f (linspace start stop 100) !! i = Some (f (grid_point start stop 100 i)).
Proof.
  intros Hi. rewrite list_lookup_fmap, linspace_lookup by lia. reflexivity.
Qed.

(** C8. Each of the three 1-D sweeps is a sequence of 100 values; the [i]-th
    value of the first is the transmission at the [i]-th of 100 evenly spaced
    heights of [0.1, 10], of the second at the [i]-th of 100 evenly spaced
    widths of [0.1, 2], of the third at the [i]-th of 100 evenly spaced
    electron energies of [0.1, 10], the other two parameters being those of
    the caller. *)
Theorem line_sweeps_are_pointwise (E_ev V0_fixed width_fixed : R) :
  exists by_height by_width by_energy : list R,
    plot_transmission_variations E_ev V0_fixed width_fixed
    = (by_height, by_width, by_energy)
    /\ length by_height = 100%nat
    /\ length by_width = 100%nat
    /\ length by_energy = 100%nat
    /\ forall i : nat, (i < 100)%nat ->
         by_height !! i
         = Some (transmission_coefficient
                   (grid_point 0.1 10 100 i) E_ev width_fixed)
         /\ by_width !! i
            = Some (transmission_coefficient
                      V0_fixed E_ev (grid_point 0.1 2 100 i))
         /\ by_energy !! i
            = Some (transmission_coefficient
                      V0_fixed (grid_point 0.1 10 100 i) width_fixed).
Proof.
  unfold plot_transmission_variations.
  do 3 eexists. split; [reflexivity|].
  rewrite !length_map, !linspace_length.
  repeat split; try reflexivity.
  - now apply (sweep_lookup
                 (fun V0 => transmission_coefficient V0 E_ev width_fixed)).
  - now apply (sweep_lookup
                 (fun width => transmission_coefficient V0_fixed E_ev width)).
  - now apply (sweep_lookup
                 (fun E_val => transmission_coefficient V0_fixed E_val width_fixed)).
Qed.

Lemma line_sweeps_are_pointwise_witness :
  exists by_height by_width by_energy : list R,
    plot_transmission_variations 1 2 1 = (by_height, by_width, by_energy)
    /\ by_height !! 42%nat
       = Some (transmission_coefficient (grid_point 0.1 10 100 42) 1 1)
    /\ by_width !! 42%nat
       = Some (transmission_coefficient 2 1 (grid_point 0.1 2 100 42))
    /\ by_energy !! 42%nat
       = Some (transmission_coefficient 2 (grid_point 0.1 10 100 42) 1).
Proof.
  destruct (line_sweeps_are_pointwise 1 2 1)
    as (by_height & by_width & by_energy & Hrun & _ & _ & _ & Hpoints).
  exists by_height, by_width, by_energy. split; [exact Hrun|].
  apply Hpoints. lia.
Defined.

(** ** The IEEE reading: which operations can raise *)

Lemma div_by_zero_spec (x y : float) :
  PrimFloat.is_zero y = true -> inf_or_nan (Prim2SF (x / y)%float).
Proof.
  unfold PrimFloat.is_zero. rewrite FloatAxioms.eqb_spec, div_spec.
  change (Prim2SF PrimFloat.zero) with (S754_zero false).
  unfold inf_or_nan, SF64div, SFdiv.
  destruct (Prim2SF y) as [sy|[|]| |[|] my ey]; simpl; try discriminate.
  intros _. destruct (Prim2SF x) as [sx|sx| |sx mx ex]; eauto.
Qed.

Lemma mul_inf_or_nan (x y : float) :
  inf_or_nan (Prim2SF x) -> inf_or_nan (Prim2SF (x * y)%float).
Proof.
  rewrite mul_spec. unfold inf_or_nan, SF64mul, SFmul.
  intros [->|[sx ->]]; [now left|].
  destruct (Prim2SF y) as [sy|sy| |sy my ey]; eauto.
Qed.

Lemma one_plus_inf_or_nan (y : float) :
  inf_or_nan (Prim2SF y) -> inf_or_nan (Prim2SF (1 + y)%float).
Proof.
  rewrite add_spec. unfold inf_or_nan.
  intros [->|[sy ->]]; [now left|]. right. now exists sy.
Qed.

Lemma one_over_inf_or_nan (y : float) :
  inf_or_nan (Prim2SF y) -> zero_or_nan (Prim2SF (1 / y)%float).
Proof.
  rewrite div_spec. unfold inf_or_nan, zero_or_nan.
  intros [->|[sy ->]]; [now left|]. right. now exists sy.
Qed.

Lemma zero_or_nan_classes (t : float) :
  zero_or_nan (Prim2SF t) ->
  PrimFloat.is_nan t = true \/ PrimFloat.is_zero t = true.
Proof.
  unfold PrimFloat.is_nan, PrimFloat.is_zero. rewrite !FloatAxioms.eqb_spec.
  change (Prim2SF PrimFloat.zero) with (S754_zero false).
  intros [->|[s ->]]; [now left|now right].
Qed.

Lemma is_zero_cases (x : float) :
  PrimFloat.is_zero x = true -> x = 0%float \/ x = (- 0)%float.
Proof.
  unfold PrimFloat.is_zero. rewrite FloatAxioms.eqb_spec.
  change (Prim2SF PrimFloat.zero) with (S754_zero false).
  rewrite <- (SF2Prim_Prim2SF x) at 2 3.
  destruct (Prim2SF x) as [[|]|[|]| |[|] mx ex]; simpl; try discriminate;
    intros _; [right|left]; reflexivity.
Qed.

(** With a zero electron energy the divisor [4 * k0 ** 2] of line 20 is zero. *)
Lemma divisor_at_zero_energy (E : float) :
  PrimFloat.is_zero E = true ->
  PrimFloat.is_zero
    (4 * (PrimFloat.sqrt (2 * Py.ME * (E * Py.e)) / Py.HBAR
          * (PrimFloat.sqrt (2 * Py.ME * (E * Py.e)) / Py.HBAR)))%float = true.
Proof. intros HE. destruct (is_zero_cases E HE) as [->| ->]; reflexivity. Qed.

Lemma zero_energy_result (k s d : float) :
  PrimFloat.is_zero d = true ->
  let t := (1 / (1 + k / d * s))%float in
  PrimFloat.is_nan t = true \/ PrimFloat.is_zero t = true.
Proof.
  intros Hd t. apply zero_or_nan_classes. unfold t.
  apply one_over_inf_or_nan, one_plus_inf_or_nan, mul_inf_or_nan.
  now apply div_by_zero_spec.
Qed.

(** C6. [transmission_coefficient] returns a value, never an exception, for
    every triple of floats (of either Python type, zero, negative, infinite and
    NaN included) and whatever libm's [sinh] returns.  When the electron energy
    is zero and the sub-barrier branch is taken, the division of line 20 is a
    division by zero; it is numpy's, and it propagates into the returned
    [numpy.float64], which is a zero or a NaN. *)
Theorem transmission_never_raises (sinh : float -> float) :
  (forall V0_ev E_ev width_nm : Py.num,
      exists T : Py.num,
        Py.transmission_coefficient sinh V0_ev E_ev width_nm = Py.Ok T)
  /\ (forall V0_ev E_ev width_nm : Py.num,
        PrimFloat.is_zero (Py.val E_ev) = true ->
        Py.lt (Py.mul E_ev (Py.PyFloat Py.e)) (Py.mul V0_ev (Py.PyFloat Py.e)) = true ->
        exists t : float,
          Py.transmission_coefficient sinh V0_ev E_ev width_nm
          = Py.Ok (Py.NpFloat64 t)
          /\ (PrimFloat.is_nan t = true \/ PrimFloat.is_zero t = true)).
Proof.
  split.
  - intros V0_ev E_ev width_nm. unfold Py.transmission_coefficient.
    destruct (Py.lt _ _); [|eexists; reflexivity].
    destruct V0_ev, E_ev, width_nm; simpl; eexists; reflexivity.
  - intros V0_ev E_ev width_nm HE Hlt. unfold Py.transmission_coefficient.
    rewrite Hlt.
    destruct V0_ev as [V0|V0], E_ev as [E|E], width_nm as [w|w];
      simpl in HE |- *;
      (eexists; split; [reflexivity|]);
      apply zero_energy_result, divisor_at_zero_energy, HE.
Qed.

Lemma transmission_never_raises_witness :
  exists t : float,
    Py.transmission_coefficient (fun x => x)
      (Py.PyFloat 1) (Py.PyFloat 0) (Py.PyFloat 1)
    = Py.Ok (Py.NpFloat64 t)
    /\ (PrimFloat.is_nan t = true \/ PrimFloat.is_zero t = true).
Proof.
  apply (proj2 (transmission_never_raises (fun x => x))); reflexivity.
Defined.

(** ** Checks on concrete inputs *)

#[local] Set Warnings "-inexact-float".

Example linspace_three_points : linspace 0 1 3 = [0; 1 / 2; 1].
Proof. unfold linspace. simpl. repeat f_equal; lra. Qed.

Example meshgrid_two_by_three :
  meshgrid [1; 2; 3] [10; 20]
  = ([[1; 2; 3]; [1; 2; 3]], [[10; 10; 10]; [20; 20; 20]]).
Proof. reflexivity. Qed.

Example setitem_out_of_range : setitem [[0; 0]; [0; 0]] 2 0 1 = None.
Proof. reflexivity. Qed.

Example python_division_raises :
  Py.truediv (Py.PyFloat 1) (Py.PyFloat 0) = Py.Raise Py.ZeroDivisionError.
Proof. reflexivity. Qed.

Example numpy_division_propagates :
  Py.truediv (Py.NpFloat64 1) (Py.PyFloat 0) = Py.Ok (Py.NpFloat64 infinity).
Proof. reflexivity. Qed.

Example python_power_overflows :
  Py.pow2 (Py.PyFloat 1e200) = Py.Raise Py.OverflowError.
Proof. reflexivity. Qed.

(** The wavenumber of a deficit of 1 eV, about 5.12 per nanometre. *)
Example wavenumber_one_electron_volt :
  Py.truediv
    (Py.np_sqrt (Py.mul (Py.mul (Py.PyFloat 2) (Py.PyFloat Py.ME))
                        (Py.sub (Py.mul (Py.PyFloat 2) (Py.PyFloat Py.e))
                                (Py.mul (Py.PyFloat 1) (Py.PyFloat Py.e)))))
    (Py.PyFloat Py.HBAR)
  = Py.Ok (Py.NpFloat64 5123167219.6749306).
Proof. reflexivity. Qed.

(** ** Where the two readings part

    The bounds of the exact reading are statements about the formula.  In
    binary64 an electron energy of 1e-300 eV is positive and below a barrier of
    1 eV, but [2 * ME * E] underflows to zero, [k0] is zero, and the value
    returned is a zero or a NaN whatever libm's [sinh] returns. *)
Remark tiny_energy_underflows (sinh : float -> float) :
  Py.lt (Py.mul (Py.PyFloat 1e-300) (Py.PyFloat Py.e))
        (Py.mul (Py.PyFloat 1) (Py.PyFloat Py.e)) = true
  /\ exists t : float,
       Py.transmission_coefficient sinh
         (Py.PyFloat 1) (Py.PyFloat 1e-300) (Py.PyFloat 1)
       = Py.Ok (Py.NpFloat64 t)
       /\ (PrimFloat.is_nan t = true \/ PrimFloat.is_zero t = true).
Proof.
  split; [reflexivity|].
  eexists. split; [reflexivity|].
  apply zero_energy_result. reflexivity.
Qed.

(** * Further properties of the IEEE reading *)

(** ** NaN inputs *)

Lemma val_arith (op : float -> float -> float) (a b : Py.num) :
  Py.val (Py.arith op a b) = op (Py.val a) (Py.val b).
Proof. destruct a, b; reflexivity. Qed.

Lemma SFcompare_refl (f : spec_float) :
  f <> S754_nan -> SFcompare f f = Some Eq.
Proof.
  destruct f as [s|s| |s m ex]; simpl; try congruence; intros _.
  - destruct s; reflexivity.
  - destruct s; rewrite Z.compare_refl, Pos.compare_cont_refl; reflexivity.
Qed.

Lemma is_nan_spec (x : float) :
  PrimFloat.is_nan x = true -> Prim2SF x = S754_nan.
Proof.
  unfold PrimFloat.is_nan. rewrite FloatAxioms.eqb_spec. unfold SFeqb.
  intros Hx. destruct (Prim2SF x) as [s|s| |s m ex] eqn:Hf; [| |reflexivity|];
    rewrite SFcompare_refl in Hx by discriminate; discriminate.
Qed.

Lemma ltb_nan_l (x y : float) :
  Prim2SF x = S754_nan -> (x <? y)%float = false.
Proof. intros Hx. rewrite ltb_spec, Hx. reflexivity. Qed.

Lemma ltb_nan_r (x y : float) :
  Prim2SF y = S754_nan -> (x <? y)%float = false.
Proof.
  intros Hy. rewrite ltb_spec, Hy. now destruct (Prim2SF x).
Qed.

Lemma mul_nan_l (x y : float) :
  Prim2SF x = S754_nan -> Prim2SF (x * y)%float = S754_nan.
Proof. intros Hx. rewrite mul_spec, Hx. reflexivity. Qed.

(** X9. When the electron energy or the barrier height is a NaN, the
    comparison of line 17 is false and the call returns the Python float 1.0,
    whatever the width: a NaN input is not propagated to the result. *)
Theorem nan_input_gives_one (sinh : float -> float)
    (V0_ev E_ev width_nm : Py.num) :
  PrimFloat.is_nan (Py.val E_ev) = true
  \/ PrimFloat.is_nan (Py.val V0_ev) = true ->
  Py.transmission_coefficient sinh V0_ev E_ev width_nm
  = Py.Ok (Py.PyFloat 1).
Proof.
  intros Hnan. unfold Py.transmission_coefficient.
  replace (Py.lt (Py.mul E_ev (Py.PyFloat Py.e))
             (Py.mul V0_ev (Py.PyFloat Py.e))) with false; [reflexivity|].
  symmetry. unfold Py.lt, Py.mul. rewrite !val_arith. simpl Py.val.
  destruct Hnan as [HE|HV].
  - apply ltb_nan_l, mul_nan_l, is_nan_spec, HE.
  - apply ltb_nan_r, mul_nan_l, is_nan_spec, HV.
Qed.

Lemma nan_input_gives_one_witness :
  Py.transmission_coefficient (fun x => x)
    (Py.NpFloat64 nan) (Py.PyFloat 1) (Py.PyFloat 1)
  = Py.Ok (Py.PyFloat 1).
Proof. apply nan_input_gives_one. right. reflexivity. Defined.

(** ** Zero and negative electron energies *)

Lemma leb_zero_nonpos (x : float) :
  (x <=? 0)%float = true -> nonpos_or_nan (Prim2SF x).
Proof.
  rewrite leb_spec. change (Prim2SF 0) with (S754_zero false).
  destruct (Prim2SF x) as [s|[|]| |[|] m ex]; simpl; intros Hx;
    try discriminate; auto.
Qed.

Lemma binary_round_aux_sign (s : bool) (m ex : Z) (l : location) :
  match binary_round_aux prec emax s m ex l with
  | S754_nan => True
  | S754_zero s' | S754_infinity s' | S754_finite s' _ _ => s' = s
  end.
Proof.
  unfold binary_round_aux.
  destruct (shr_fexp prec emax m ex l) as [mrs' e'].
  destruct (shr_fexp prec emax _ e' loc_Exact) as [mrs'' e''].
  destruct (shr_m mrs''); [reflexivity| |exact I].
  destruct (Z.leb e'' (emax - prec)); reflexivity.
Qed.

Lemma SFmul_nonpos_r (f : spec_float) (m : positive) (ex : Z) :
  nonpos_or_nan f ->
  nonpos_or_nan (SF64mul f (S754_finite false m ex)).
Proof.
  unfold SF64mul, SFmul.
  destruct f as [s|s| |s mf ef]; simpl; intros Hf; auto.
  - subst s. reflexivity.
  - subst s. simpl.
    pose proof (binary_round_aux_sign true (Z.pos (mf * m)) (ef + ex) loc_Exact)
      as Hs.
    destruct (binary_round_aux prec emax true _ _ _); simpl; auto.
Qed.

Lemma SFmul_nonpos_l (f : spec_float) (m : positive) (ex : Z) :
  nonpos_or_nan f ->
  nonpos_or_nan (SF64mul (S754_finite false m ex) f).
Proof.
  unfold SF64mul, SFmul.
  destruct f as [s|s| |s mf ef]; simpl; intros Hf; auto.
  subst s.
  pose proof (binary_round_aux_sign true (Z.pos (m * mf)) (ex + ef) loc_Exact)
    as Hs.
  destruct (binary_round_aux prec emax true _ _ _); simpl; auto.
Qed.

Lemma mul_nonpos_r (x c : float) :
  pos_finite c -> nonpos_or_nan (Prim2SF x) ->
  nonpos_or_nan (Prim2SF (x * c)%float).
Proof.
  intros (m & ex & Hc) Hx. rewrite mul_spec, Hc. now apply SFmul_nonpos_r.
Qed.

Lemma mul_nonpos_l (c x : float) :
  pos_finite c -> nonpos_or_nan (Prim2SF x) ->
  nonpos_or_nan (Prim2SF (c * x)%float).
Proof.
  intros (m & ex & Hc) Hx. rewrite mul_spec, Hc. now apply SFmul_nonpos_l.
Qed.

Lemma sqrt_nonpos (x : float) :
  nonpos_or_nan (Prim2SF x) -> zero_or_nan (Prim2SF (PrimFloat.sqrt x)).
Proof.
  rewrite sqrt_spec. unfold zero_or_nan, SF64sqrt, SFsqrt.
  destruct (Prim2SF x) as [s|s| |s m ex]; simpl; intros Hx; subst; eauto.
Qed.

Lemma div_zero_or_nan_l (x c : float) :
  pos_finite c -> zero_or_nan (Prim2SF x) ->
  zero_or_nan (Prim2SF (x / c)%float).
Proof.
  intros (m & ex & Hc). rewrite div_spec, Hc. unfold zero_or_nan.
  intros [->|[s ->]]; simpl; eauto.
Qed.

Lemma square_zero_or_nan (x : float) :
  zero_or_nan (Prim2SF x) -> zero_or_nan (Prim2SF (x * x)%float).
Proof.
  rewrite mul_spec. unfold zero_or_nan.
  intros [->|[s ->]]; simpl; eauto.
Qed.

Lemma mul_zero_or_nan_r (c x : float) :
  pos_finite c -> zero_or_nan (Prim2SF x) ->
  zero_or_nan (Prim2SF (c * x)%float).
Proof.
  intros (m & ex & Hc). rewrite mul_spec, Hc. unfold zero_or_nan.
  intros [->|[s ->]]; simpl; eauto.
Qed.

Lemma div_by_zero_or_nan (x d : float) :
  zero_or_nan (Prim2SF d) -> inf_or_nan (Prim2SF (x / d)%float).
Proof.
  rewrite div_spec. unfold zero_or_nan, inf_or_nan, SF64div, SFdiv.
  intros [->|[s ->]]; destruct (Prim2SF x) as [sx|sx| |sx mx ex]; eauto.
Qed.

#[local] Set Warnings "-inexact-float".

Lemma pos_finite_e : pos_finite Py.e.
Proof. do 2 eexists. vm_compute. reflexivity. Qed.

Lemma pos_finite_two_ME : pos_finite (2 * Py.ME)%float.
Proof. do 2 eexists. vm_compute. reflexivity. Qed.

Lemma pos_finite_HBAR : pos_finite Py.HBAR.
Proof. do 2 eexists. vm_compute. reflexivity. Qed.

Lemma pos_finite_four : pos_finite 4%float.
Proof. do 2 eexists. vm_compute. reflexivity. Qed.

(** With an electron energy that is zero or negative, the divisor
    [4 * k0 ** 2] of line 20 is a zero or a NaN. *)
Lemma divisor_at_nonpositive_energy (E : float) :
  (E <=? 0)%float = true ->
  zero_or_nan
    (Prim2SF
       (4 * (PrimFloat.sqrt (2 * Py.ME * (E * Py.e)) / Py.HBAR
             * (PrimFloat.sqrt (2 * Py.ME * (E * Py.e)) / Py.HBAR)))%float).
Proof.
  intros HE.
  apply (mul_zero_or_nan_r _ _ pos_finite_four), square_zero_or_nan.
  apply (div_zero_or_nan_l _ _ pos_finite_HBAR), sqrt_nonpos.
  apply (mul_nonpos_l _ _ pos_finite_two_ME).
  apply (mul_nonpos_r _ _ pos_finite_e).
  now apply leb_zero_nonpos.
Qed.

Lemma no_probability_result (k s d : float) :
  zero_or_nan (Prim2SF d) ->
  let t := (1 / (1 + k / d * s))%float in
  PrimFloat.is_nan t = true \/ PrimFloat.is_zero t = true.
Proof.
  intros Hd t. apply zero_or_nan_classes. unfold t.
  apply one_over_inf_or_nan, one_plus_inf_or_nan, mul_inf_or_nan.
  now apply div_by_zero_or_nan.
Qed.

(** X10. For every electron energy that is zero or negative (of either
    Python type, minus infinity included), if the sub-barrier branch is taken
    the call returns a [numpy.float64] that is a NaN or a zero: a positive
    probability is never returned, whatever the width and libm's [sinh]. *)
Theorem nonpositive_energy_gives_no_probability (sinh : float -> float)
    (V0_ev E_ev width_nm : Py.num) :
  (Py.val E_ev <=? 0)%float = true ->
  Py.lt (Py.mul E_ev (Py.PyFloat Py.e)) (Py.mul V0_ev (Py.PyFloat Py.e)) = true ->
  exists t : float,
    Py.transmission_coefficient sinh V0_ev E_ev width_nm
    = Py.Ok (Py.NpFloat64 t)
    /\ (PrimFloat.is_nan t = true \/ PrimFloat.is_zero t = true).
Proof.
  intros HE Hlt. unfold Py.transmission_coefficient. rewrite Hlt.
  destruct V0_ev as [V0|V0], E_ev as [E|E], width_nm as [w|w];
    simpl in HE |- *;
    (eexists; split; [reflexivity|]);
    apply no_probability_result, divisor_at_nonpositive_energy, HE.
Qed.

Lemma nonpositive_energy_gives_no_probability_witness :
  exists t : float,
    Py.transmission_coefficient (fun x => x)
      (Py.PyFloat 2) (Py.NpFloat64 (-1)) (Py.PyFloat 1)
    = Py.Ok (Py.NpFloat64 t)
    /\ (PrimFloat.is_nan t = true \/ PrimFloat.is_zero t = true).
Proof.
  apply nonpositive_energy_gives_no_probability; reflexivity.
Defined.

(** * The values returned, on the IEEE reading *)

#[local] Set Warnings "-inexact-float".

(** ** The two branches *)

Lemma transmission_sub_barrier (sinh : float -> float)
    (V0_ev E_ev width_nm : Py.num) :
  Py.lt (Py.mul E_ev (Py.PyFloat Py.e)) (Py.mul V0_ev (Py.PyFloat Py.e)) = true ->
  Py.transmission_coefficient sinh V0_ev E_ev width_nm
  = Py.Ok (Py.NpFloat64
             (ieee_T sinh (Py.val V0_ev) (Py.val E_ev) (Py.val width_nm))).
Proof.
  intros Hlt. unfold Py.transmission_coefficient. rewrite Hlt.
  destruct V0_ev, E_ev, width_nm; reflexivity.
Qed.

Lemma transmission_not_sub_barrier (sinh : float -> float)
    (V0_ev E_ev width_nm : Py.num) :
  Py.lt (Py.mul E_ev (Py.PyFloat Py.e)) (Py.mul V0_ev (Py.PyFloat Py.e)) = false ->
  Py.transmission_coefficient sinh V0_ev E_ev width_nm = Py.Ok (Py.PyFloat 1).
Proof.
  intros Hlt. unfold Py.transmission_coefficient. now rewrite Hlt.
Qed.

(** ** Classes of values *)

Lemma is_zero_spec (x : float) :
  PrimFloat.is_zero x = true -> exists s : bool, Prim2SF x = S754_zero s.
Proof.
  unfold PrimFloat.is_zero. rewrite FloatAxioms.eqb_spec.
  change (Prim2SF PrimFloat.zero) with (S754_zero false).
  destruct (Prim2SF x) as [s|[|]| |[|] m ex]; simpl; try discriminate.
  intros _. now exists s.
Qed.

Lemma is_zero_of_spec (x : float) (s : bool) :
  Prim2SF x = S754_zero s -> PrimFloat.is_zero x = true.
Proof.
  intros Hx. unfold PrimFloat.is_zero. rewrite FloatAxioms.eqb_spec, Hx.
  reflexivity.
Qed.

Lemma is_finite_spec (x : float) :
  PrimFloat.is_finite x = true -> finite_or_zero (Prim2SF x).
Proof.
  unfold PrimFloat.is_finite, PrimFloat.is_nan, PrimFloat.is_infinity.
  rewrite !FloatAxioms.eqb_spec, abs_spec.
  change (Prim2SF infinity) with (S754_infinity false).
  destruct (Prim2SF x) as [s|[|]| |s m ex]; simpl; try discriminate; auto.
Qed.

Lemma nan_or_zero_is_not_positive (t : float) :
  PrimFloat.is_nan t = true \/ PrimFloat.is_zero t = true ->
  (0 <? t)%float = false /\ (t =? 1)%float = false.
Proof.
  rewrite ltb_spec, FloatAxioms.eqb_spec.
  change (Prim2SF 0) with (S754_zero false).
  intros [Hn|Hz].
  - rewrite (is_nan_spec _ Hn). split; reflexivity.
  - destruct (is_zero_spec _ Hz) as [s ->]. split; reflexivity.
Qed.

(** ** A vanishing width *)

Lemma div_finite_numerator (x y : float) :
  finite_or_zero (Prim2SF (x / y)%float) -> finite_or_zero (Prim2SF x).
Proof.
  rewrite div_spec. unfold SF64div, SFdiv.
  destruct (Prim2SF x) as [sx|sx| |sx mx ex]; simpl; auto;
    destruct (Prim2SF y) as [sy|sy| |sy my ey]; simpl; auto.
Qed.

Lemma square_finite (x : float) :
  finite_or_zero (Prim2SF (x * x)%float) -> finite_or_zero (Prim2SF x).
Proof.
  rewrite mul_spec. unfold SF64mul, SFmul.
  destruct (Prim2SF x) as [sx|sx| |sx mx ex]; simpl; auto.
Qed.

Lemma mul_zero_l (x y : float) :
  PrimFloat.is_zero x = true -> pos_finite y ->
  PrimFloat.is_zero (x * y)%float = true.
Proof.
  intros Hx (m & ex & Hy). destruct (is_zero_spec _ Hx) as [s Hs].
  apply (is_zero_of_spec _ (xorb s false)).
  rewrite mul_spec, Hs, Hy. reflexivity.
Qed.

Lemma mul_finite_zero (x y : float) :
  finite_or_zero (Prim2SF x) -> PrimFloat.is_zero y = true ->
  PrimFloat.is_zero (x * y)%float = true.
Proof.
  intros Hx Hy. destruct (is_zero_spec _ Hy) as [s Hs].
  destruct (Prim2SF x) as [sx|sx| |sx mx ex] eqn:Hfx; try contradiction.
  - apply (is_zero_of_spec _ (xorb sx s)). rewrite mul_spec, Hfx, Hs. reflexivity.
  - apply (is_zero_of_spec _ (xorb sx s)). rewrite mul_spec, Hfx, Hs. reflexivity.
Qed.

Lemma square_zero (x : float) :
  PrimFloat.is_zero x = true -> PrimFloat.is_zero (x * x)%float = true.
Proof.
  intros Hx. destruct (is_zero_spec _ Hx) as [s Hs].
  apply (is_zero_of_spec _ (xorb s s)). rewrite mul_spec, Hs. reflexivity.
Qed.

Lemma one_plus_zero (z : float) :
  PrimFloat.is_zero z = true -> (1 + z)%float = 1%float.
Proof.
  intros Hz. destruct (is_zero_spec _ Hz) as [s Hs].
  apply Prim2SF_inj. rewrite add_spec, Hs. reflexivity.
Qed.

Lemma ieee_T_at_zero_width (sinh : float -> float) (V0_ev E_ev w : float) :
  (forall z : float,
      PrimFloat.is_zero z = true -> PrimFloat.is_zero (sinh z) = true) ->
  PrimFloat.is_zero (w * 1e-9)%float = true ->
  PrimFloat.is_finite (ieee_prefactor V0_ev E_ev) = true ->
  ieee_T sinh V0_ev E_ev w = 1%float.
Proof.
  intros Hsinh Hw Hfin. apply is_finite_spec in Hfin.
  assert (Hk : finite_or_zero (Prim2SF (ieee_k V0_ev E_ev))).
  { apply square_finite. apply (div_finite_numerator _ _ Hfin). }
  unfold ieee_T.
  assert (Hs : PrimFloat.is_zero
                 (sinh (ieee_k V0_ev E_ev * (w * 1e-9)))%float = true).
  { apply Hsinh, mul_finite_zero; [exact Hk|exact Hw]. }
  cbv zeta.
  rewrite (one_plus_zero _ (mul_finite_zero _ _ Hfin (square_zero _ Hs))).
  reflexivity.
Qed.

Lemma zero_width_in_metres (w : float) :
  PrimFloat.is_zero w = true -> PrimFloat.is_zero (w * 1e-9)%float = true.
Proof.
  intros Hw. apply mul_zero_l; [exact Hw|]. do 2 eexists. vm_compute. reflexivity.
Qed.

Lemma not_finite_spec (x : float) :
  PrimFloat.is_finite x = false -> inf_or_nan (Prim2SF x).
Proof.
  unfold PrimFloat.is_finite, PrimFloat.is_nan, PrimFloat.is_infinity.
  rewrite !FloatAxioms.eqb_spec, abs_spec. unfold inf_or_nan.
  change (Prim2SF infinity) with (S754_infinity false).
  destruct (Prim2SF x) as [s|[|]| |s m ex]; simpl; try discriminate; eauto.
  unfold SFeqb. rewrite SFcompare_refl by discriminate. simpl. discriminate.
Qed.

Lemma ieee_T_without_finite_prefactor (sinh : float -> float)
    (V0_ev E_ev w : float) :
  PrimFloat.is_finite (ieee_prefactor V0_ev E_ev) = false ->
  PrimFloat.is_nan (ieee_T sinh V0_ev E_ev w) = true
  \/ PrimFloat.is_zero (ieee_T sinh V0_ev E_ev w) = true.
Proof.
  intros Hfin. apply zero_or_nan_classes. unfold ieee_T. cbv zeta.
  apply one_over_inf_or_nan, one_plus_inf_or_nan, mul_inf_or_nan.
  now apply not_finite_spec.
Qed.

(** ** The sign of the width *)

Lemma binary_round_aux_opp (s : bool) (m ex : Z) (l : location) :
  binary_round_aux prec emax (negb s) m ex l
  = SFopp (binary_round_aux prec emax s m ex l).
Proof.
  unfold binary_round_aux.
  destruct (shr_fexp prec emax m ex l) as [mrs' e'].
  destruct (shr_fexp prec emax _ e' loc_Exact) as [mrs'' e''].
  destruct (shr_m mrs''); [reflexivity| |reflexivity].
  destruct (Z.leb e'' (emax - prec)); reflexivity.
Qed.

Lemma SFmul_opp_l (x y : spec_float) :
  SF64mul (SFopp x) y = SFopp (SF64mul x y).
Proof.
  unfold SF64mul, SFmul.
  destruct x as [sx|sx| |sx mx ex], y as [sy|sy| |sy my ey]; simpl;
    try reflexivity; try (now destruct sx, sy).
  rewrite <- binary_round_aux_opp. now destruct sx, sy.
Qed.

Lemma SFmul_opp_r (x y : spec_float) :
  SF64mul x (SFopp y) = SFopp (SF64mul x y).
Proof.
  unfold SF64mul, SFmul.
  destruct x as [sx|sx| |sx mx ex], y as [sy|sy| |sy my ey]; simpl;
    try reflexivity; try (now destruct sx, sy).
  rewrite <- binary_round_aux_opp. now destruct sx, sy.
Qed.

Lemma SFopp_involutive (x : spec_float) : SFopp (SFopp x) = x.
Proof. destruct x as [s|s| |s m ex]; simpl; now rewrite ?Bool.negb_involutive. Qed.

Lemma mul_opp_l (x y : float) : (- x * y)%float = (- (x * y))%float.
Proof.
  apply Prim2SF_inj. now rewrite mul_spec, !opp_spec, mul_spec, SFmul_opp_l.
Qed.

Lemma mul_opp_r (x y : float) : (x * - y)%float = (- (x * y))%float.
Proof.
  apply Prim2SF_inj. now rewrite mul_spec, !opp_spec, mul_spec, SFmul_opp_r.
Qed.

Lemma mul_opp_opp (x y : float) : (- x * - y)%float = (x * y)%float.
Proof.
  apply Prim2SF_inj.
  now rewrite mul_spec, !opp_spec, SFmul_opp_l, SFmul_opp_r, SFopp_involutive,
    mul_spec.
Qed.

Lemma ieee_T_even (sinh : float -> float) (V0_ev E_ev w : float) :
  (forall x : float, sinh (- x)%float = (- sinh x)%float) ->
  ieee_T sinh V0_ev E_ev (- w) = ieee_T sinh V0_ev E_ev w.
Proof.
  intros Hodd. unfold ieee_T. cbv zeta.
  now rewrite mul_opp_l, mul_opp_r, Hodd, mul_opp_opp.
Qed.

Lemma val_py_neg (a : Py.num) : Py.val (py_neg a) = (- Py.val a)%float.
Proof. now destruct a. Qed.

Lemma branch_ignores_width (V0_ev E_ev w1 w2 : Py.num) (sinh : float -> float) :
  Py.lt (Py.mul E_ev (Py.PyFloat Py.e)) (Py.mul V0_ev (Py.PyFloat Py.e)) = false ->
  Py.transmission_coefficient sinh V0_ev E_ev w1
  = Py.transmission_coefficient sinh V0_ev E_ev w2.
Proof.
  intros Hlt. now rewrite !transmission_not_sub_barrier.
Qed.

Lemma transmission_even (sinh : float -> float) (V0_ev E_ev width_nm : Py.num) :
  (forall x : float, sinh (- x)%float = (- sinh x)%float) ->
  Py.transmission_coefficient sinh V0_ev E_ev (py_neg width_nm)
  = Py.transmission_coefficient sinh V0_ev E_ev width_nm.
Proof.
  intros Hodd.
  destruct (Py.lt (Py.mul E_ev (Py.PyFloat Py.e))
              (Py.mul V0_ev (Py.PyFloat Py.e))) eqn:Hlt.
  - rewrite !transmission_sub_barrier by assumption.
    now rewrite val_py_neg, ieee_T_even.
  - now apply branch_ignores_width.
Qed.

(** ** The sign of the result *)

Lemma nonneg_square (x : float) : nonneg_or_nan (Prim2SF (x * x)%float).
Proof.
  rewrite mul_spec. unfold SF64mul, SFmul.
  destruct (Prim2SF x) as [s|s| |s m ex]; simpl;
    try exact I; try (now destruct s).
  pose proof (binary_round_aux_sign (xorb s s) (Z.pos (m * m)) (ex + ex)
                loc_Exact) as Hs.
  rewrite Bool.xorb_nilpotent in *.
  now destruct (binary_round_aux prec emax false _ _ _).
Qed.

Lemma SFmul_nonneg (x y : spec_float) :
  nonneg_or_nan x -> nonneg_or_nan y -> nonneg_or_nan (SF64mul x y).
Proof.
  unfold SF64mul, SFmul.
  destruct x as [sx|sx| |sx mx ex], y as [sy|sy| |sy my ey]; simpl;
    intros Hx Hy; subst; simpl; auto.
  pose proof (binary_round_aux_sign false (Z.pos (mx * my)) (ex + ey)
                loc_Exact) as Hs.
  now destruct (binary_round_aux prec emax false _ _ _).
Qed.

Lemma SFdiv_nonneg (x y : spec_float) :
  nonneg_or_nan x -> nonneg_or_nan y -> nonneg_or_nan (SF64div x y).
Proof.
  unfold SF64div, SFdiv.
  destruct x as [sx|sx| |sx mx ex], y as [sy|sy| |sy my ey]; simpl;
    intros Hx Hy; subst; simpl; auto.
  destruct (SFdiv_core_binary prec emax (Z.pos mx) ex (Z.pos my) ey)
    as [[mz ez] lz].
  pose proof (binary_round_aux_sign false mz ez lz) as Hs.
  now destruct (binary_round_aux prec emax false _ _ _).
Qed.

Lemma nonneg_four_times (x : float) :
  nonneg_or_nan (Prim2SF x) -> nonneg_or_nan (Prim2SF (4 * x)%float).
Proof.
  intros Hx. rewrite mul_spec. apply SFmul_nonneg; [reflexivity|exact Hx].
Qed.

Lemma ieee_denominator_nonneg (sinh : float -> float) (V0_ev E_ev w : float) :
  let s := sinh (ieee_k V0_ev E_ev * (w * 1e-9))%float in
  nonneg_or_nan (Prim2SF (ieee_prefactor V0_ev E_ev * (s * s))%float).
Proof.
  intros s. rewrite mul_spec. apply SFmul_nonneg; [|apply nonneg_square].
  unfold ieee_prefactor. rewrite div_spec.
  apply SFdiv_nonneg; [apply nonneg_square|].
  apply nonneg_four_times, nonneg_square.
Qed.

(** ** The result is at most one

    Line 20 returns [1 / (1 + x)] with [x] of clear sign or NaN.  The sum is
    then at least one (or NaN) and the quotient at most one: rounding to
    nearest never crosses the representable value one.  This is read off the
    mantissas and exponents of [SpecFloat]'s [binary_round_aux], the function
    that the axioms of [FloatAxioms] give as the meaning of [+] and [/]. *)

Section Rounding.

Local Open Scope Z_scope.

(** Shifting a mantissa to the right divides it by a power of two. *)

Lemma shr_1_spec (mrs : shr_record) :
  0 <= shr_m mrs -> shr_m (shr_1 mrs) = shr_m mrs / 2.
Proof.
  destruct mrs as [m r s]. simpl. intros Hm.
  rewrite <- Z.div2_div.
  destruct m as [|[p|p|]|p]; try reflexivity. lia.
Qed.

Lemma pow2_xO (n : positive) : 2 ^ Z.pos n~0 = 2 ^ Z.pos n * 2 ^ Z.pos n.
Proof.
  replace (Z.pos n~0) with (Z.pos n + Z.pos n) by lia.
  apply Z.pow_add_r; lia.
Qed.

Lemma pow2_xI (n : positive) : 2 ^ Z.pos n~1 = 2 * (2 ^ Z.pos n * 2 ^ Z.pos n).
Proof.
  replace (Z.pos n~1) with (Z.succ (Z.pos n~0)) by lia.
  rewrite Z.pow_succ_r by lia. now rewrite pow2_xO.
Qed.

Lemma iter_shr_1_spec (n : positive) (mrs : shr_record) :
  0 <= shr_m mrs ->
  shr_m (SpecFloat.iter_pos shr_1 n mrs) = shr_m mrs / 2 ^ Z.pos n.
Proof.
  revert mrs. induction n as [n IH|n IH|]; intros mrs Hm; simpl.
  - assert (Hp : 0 < 2 ^ Z.pos n) by (apply Z.pow_pos_nonneg; lia).
    assert (H1 : 0 <= shr_m (shr_1 mrs)).
    { rewrite shr_1_spec by assumption. apply Z.div_pos; lia. }
    assert (H2 : 0 <= shr_m (SpecFloat.iter_pos shr_1 n (shr_1 mrs))).
    { rewrite IH by assumption. apply Z.div_pos; assumption. }
    rewrite IH, IH, shr_1_spec by assumption.
    rewrite !Z.div_div by lia.
    now rewrite pow2_xI, Z.mul_assoc.
  - assert (Hp : 0 < 2 ^ Z.pos n) by (apply Z.pow_pos_nonneg; lia).
    assert (H2 : 0 <= shr_m (SpecFloat.iter_pos shr_1 n mrs)).
    { rewrite IH by assumption. apply Z.div_pos; assumption. }
    rewrite IH, IH by assumption.
    rewrite !Z.div_div by lia.
    now rewrite pow2_xO.
  - rewrite shr_1_spec by assumption. reflexivity.
Qed.

Lemma shr_spec (mrs : shr_record) (ex n : Z) :
  0 <= shr_m mrs ->
  shr_m (fst (shr mrs ex n)) = shr_m mrs / 2 ^ Z.max n 0
  /\ snd (shr mrs ex n) = ex + Z.max n 0.
Proof.
  intros Hm. destruct n as [|p|p]; simpl.
  - rewrite Z.div_1_r. split; [reflexivity|lia].
  - rewrite iter_shr_1_spec by assumption. split; reflexivity.
  - rewrite Z.div_1_r. split; [reflexivity|lia].
Qed.

Lemma shr_record_of_loc_m (m : Z) (l : location) :
  shr_m (shr_record_of_loc m l) = m.
Proof. destruct l as [|[| |]]; reflexivity. Qed.

Lemma shr_fexp_spec (m ex : Z) (l : location) :
  0 <= m ->
  let n := Z.max (Z.max (Zdigits2 m + ex - 53) (-1074) - ex) 0 in
  shr_m (fst (shr_fexp prec emax m ex l)) = m / 2 ^ n
  /\ snd (shr_fexp prec emax m ex l) = ex + n.
Proof.
  intros Hm n. unfold shr_fexp.
  pose proof (shr_spec (shr_record_of_loc m l) ex
                (fexp prec emax (Zdigits2 m + ex) - ex)) as H.
  rewrite shr_record_of_loc_m in H. specialize (H Hm).
  exact H.
Qed.

Lemma round_nearest_even_bounds (m : Z) (l : location) :
  m <= round_nearest_even m l <= m + 1.
Proof.
  unfold round_nearest_even.
  destruct l as [|[| |]]; try lia. destruct (Z.even m); lia.
Qed.

Lemma digits2_pos_size (p : positive) : digits2_pos p = Pos.size p.
Proof. induction p as [p IH|p IH|]; simpl; now rewrite ?IH. Qed.

Lemma Zdigits2_bounds (p : positive) :
  2 ^ (Zdigits2 (Z.pos p) - 1) <= Z.pos p < 2 ^ Zdigits2 (Z.pos p).
Proof.
  change (Zdigits2 (Z.pos p)) with (Z.pos (digits2_pos p)).
  rewrite digits2_pos_size.
  pose proof (Pos.size_le p) as Hl. pose proof (Pos.size_gt p) as Hu.
  apply Pos2Z.pos_le_pos in Hl. apply Pos2Z.pos_lt_pos in Hu.
  rewrite Pos2Z.inj_pow in Hl, Hu.
  assert (Hs : 2 ^ Z.pos (Pos.size p) = 2 * 2 ^ (Z.pos (Pos.size p) - 1)).
  { rewrite <- Z.pow_succ_r by lia. f_equal. lia. }
  set (Y := 2 ^ (Z.pos (Pos.size p) - 1)) in *.
  set (X := 2 ^ Z.pos (Pos.size p)) in *. clearbody X Y. lia.
Qed.

Lemma Zdigits2_nonneg (m : Z) : 0 <= m -> 0 <= Zdigits2 m.
Proof. destruct m; simpl; lia. Qed.

Lemma Zdigits2_ge (m k : Z) : 0 <= k -> 2 ^ k <= m -> k + 1 <= Zdigits2 m.
Proof.
  intros Hk Hm.
  assert (0 < 2 ^ k) by (apply Z.pow_pos_nonneg; lia).
  destruct m as [|p|p]; try lia.
  pose proof (Zdigits2_bounds p) as [_ Hu].
  assert (Hlt : 2 ^ k < 2 ^ Zdigits2 (Z.pos p)) by lia.
  apply Z.pow_lt_mono_r_iff in Hlt; [lia|lia|].
  apply Zdigits2_nonneg. lia.
Qed.

Lemma Zdigits2_le (m k : Z) : 0 <= k -> 0 <= m -> m < 2 ^ k -> Zdigits2 m <= k.
Proof.
  intros Hk Hm0 Hm.
  destruct m as [|p|p]; try lia; [simpl; lia|].
  pose proof (Zdigits2_bounds p) as [Hl _].
  assert (Hlt : 2 ^ (Zdigits2 (Z.pos p) - 1) < 2 ^ k) by lia.
  apply Z.pow_lt_mono_r_iff in Hlt; lia.
Qed.


Lemma pow2_pos (k : Z) : 0 <= k -> 0 < 2 ^ k.
Proof. intros Hk. apply Z.pow_pos_nonneg; lia. Qed.

Lemma pow2_split (a b : Z) : 0 <= a -> 0 <= b -> 2 ^ (a + b) = 2 ^ a * 2 ^ b.
Proof. intros Ha Hb. apply Z.pow_add_r; assumption. Qed.

(** The second shift of [binary_round_aux], after a value of at least one
    has been rounded to at most 53 digits. *)

Lemma second_shift_at_least_one (m1 e' d' : Z) :
  1 <= d' <= 53 -> 1 <= d' + e' -> 2 ^ (d' - 1) <= m1 <= 2 ^ d' ->
  0 < shr_m (fst (shr_fexp prec emax m1 e' loc_Exact))
  /\ (-52 < snd (shr_fexp prec emax m1 e' loc_Exact)
      \/ (snd (shr_fexp prec emax m1 e' loc_Exact) = -52
          /\ 2 ^ 52 <= shr_m (fst (shr_fexp prec emax m1 e' loc_Exact)))).
Proof.
  intros Hd' He' Hm1.
  assert (Hp : 0 < 2 ^ (d' - 1)) by (apply pow2_pos; lia).
  assert (Hs : 2 ^ d' = 2 * 2 ^ (d' - 1)).
  { rewrite <- Z.pow_succ_r by lia. f_equal. lia. }
  assert (Hs' : 2 ^ (d' + 1) = 2 * 2 ^ d').
  { rewrite <- Z.pow_succ_r by lia. reflexivity. }
  assert (Hlo : d' <= Zdigits2 m1).
  { pose proof (Zdigits2_ge m1 (d' - 1)). lia. }
  assert (Hhi : Zdigits2 m1 <= d' + 1).
  { apply Zdigits2_le; lia. }
  destruct (shr_fexp_spec m1 e' loc_Exact) as [Hm He]; [lia|].
  rewrite Hm, He. clear Hm He.
  destruct (Z_le_gt_dec (Zdigits2 m1) 53) as [Hd1|Hd1].
  - replace (Z.max (Z.max (Zdigits2 m1 + e' - 53) (-1074) - e') 0) with 0
      by lia.
    rewrite Z.div_1_r. split; [lia|].
    destruct (Z.eq_dec e' (-52)) as [->|Hne]; [right|left; lia].
    split; [lia|]. replace d' with 53 in Hm1 by lia. exact (proj1 Hm1).
  - replace (Z.max (Z.max (Zdigits2 m1 + e' - 53) (-1074) - e') 0) with 1
      by lia.
    assert (H53 : 2 ^ 53 <= m1).
    { destruct m1 as [|p|p]; try lia.
      pose proof (Zdigits2_bounds p) as [Hl _].
      replace (Zdigits2 (Z.pos p) - 1) with 53 in Hl by lia. exact Hl. }
    assert (H52 : 2 ^ 52 <= m1 / 2 ^ 1).
    { apply Z.div_le_lower_bound; [lia|]. exact H53. }
    split; [|left; lia].
    assert (0 < 2 ^ 52) by (apply pow2_pos; lia). lia.
Qed.

Lemma round_at_least_one (m : positive) (ex : Z) (l : location) :
  ex <= 0 -> 2 ^ (- ex) <= Z.pos m ->
  at_least_one (binary_round_aux prec emax false (Z.pos m) ex l).
Proof.
  intros Hex Hm.
  assert (Hd : 1 <= Zdigits2 (Z.pos m) + ex).
  { pose proof (Zdigits2_ge (Z.pos m) (- ex)). lia. }
  pose proof (Zdigits2_bounds m) as [Hl Hu].
  unfold binary_round_aux.
  destruct (shr_fexp_spec (Z.pos m) ex l) as [Hm' He']; [lia|].
  destruct (shr_fexp prec emax (Z.pos m) ex l) as [mrs' e'].
  simpl fst in Hm'. simpl snd in He'.
  pose proof (round_nearest_even_bounds (shr_m mrs') (loc_of_shr_record mrs'))
    as Hr.
  set (m1 := round_nearest_even (shr_m mrs') (loc_of_shr_record mrs')) in *.
  assert (Hsecond : exists d', 1 <= d' <= 53 /\ 1 <= d' + e'
                               /\ 2 ^ (d' - 1) <= m1 <= 2 ^ d').
  { destruct (Z_le_gt_dec (Zdigits2 (Z.pos m)) 53) as [Hd53|Hd53].
    - exists (Zdigits2 (Z.pos m)).
      replace (Z.max (Z.max (Zdigits2 (Z.pos m) + ex - 53) (-1074) - ex) 0)
        with 0 in * by lia.
      rewrite Z.div_1_r in Hm'.
      assert (0 < Zdigits2 (Z.pos m)) by (simpl; lia).
      repeat split; lia.
    - exists 53.
      replace (Z.max (Z.max (Zdigits2 (Z.pos m) + ex - 53) (-1074) - ex) 0)
        with (Zdigits2 (Z.pos m) - 53) in * by lia.
      set (n := Zdigits2 (Z.pos m) - 53) in *.
      assert (Hn : 0 < 2 ^ n) by (apply pow2_pos; lia).
      assert (Hlo : 2 ^ 52 <= shr_m mrs').
      { rewrite Hm'. apply Z.div_le_lower_bound; [exact Hn|].
        rewrite Z.mul_comm, <- pow2_split by lia.
        replace (52 + n) with (Zdigits2 (Z.pos m) - 1) by lia. exact Hl. }
      assert (Hhi : shr_m mrs' < 2 ^ 53).
      { rewrite Hm'. apply Z.div_lt_upper_bound; [exact Hn|].
        rewrite <- pow2_split by lia.
        replace (n + 53) with (Zdigits2 (Z.pos m)) by lia. exact Hu. }
      change (53 - 1) with 52. repeat split; lia. }
  destruct Hsecond as (d' & Hd' & Hde & Hm1).
  destruct (second_shift_at_least_one m1 e' d' Hd' Hde Hm1) as [Hpos Hge].
  destruct (shr_fexp prec emax m1 e' loc_Exact) as [mrs'' e''].
  simpl fst in *. simpl snd in *.
  destruct (shr_m mrs'') as [|p|p]; try lia.
  destruct (e'' <=? emax - prec); simpl; [exact Hge|exact I].
Qed.

(** The second shift, after a value below one has been rounded. *)

Lemma second_shift_at_most_one (m1 e' : Z) :
  e' <= -52 -> 0 <= m1 <= 2 ^ (- e') ->
  0 <= shr_m (fst (shr_fexp prec emax m1 e' loc_Exact))
       <= 2 ^ (- snd (shr_fexp prec emax m1 e' loc_Exact))
  /\ snd (shr_fexp prec emax m1 e' loc_Exact) <= -52.
Proof.
  intros He' Hm1.
  assert (Hhi : Zdigits2 m1 <= - e' + 1).
  { apply Zdigits2_le; try lia.
    replace (- e' + 1) with (Z.succ (- e')) by lia.
    rewrite Z.pow_succ_r by lia.
    assert (0 < 2 ^ (- e')) by (apply pow2_pos; lia). lia. }
  destruct (shr_fexp_spec m1 e' loc_Exact) as [Hm He]; [lia|].
  rewrite Hm, He. clear Hm He.
  set (n := Z.max (Z.max (Zdigits2 m1 + e' - 53) (-1074) - e') 0).
  assert (Hn : 0 <= n <= -52 - e') by lia.
  assert (Hp : 0 < 2 ^ n) by (apply pow2_pos; lia).
  split; [|lia]. split.
  - apply Z.div_pos; lia.
  - apply Z.div_le_upper_bound; [exact Hp|].
    rewrite <- pow2_split by lia.
    replace (n + - (e' + n)) with (- e') by lia. lia.
Qed.

Lemma round_at_most_one (q ex : Z) (l : location) :
  0 <= q -> ex <= -53 -> q < 2 ^ (- ex) ->
  at_most_one (binary_round_aux prec emax false q ex l).
Proof.
  intros Hq Hex Hlt.
  assert (Hd : Zdigits2 q <= - ex) by (apply Zdigits2_le; lia).
  unfold binary_round_aux.
  destruct (shr_fexp_spec q ex l) as [Hm' He']; [lia|].
  destruct (shr_fexp prec emax q ex l) as [mrs' e'].
  simpl fst in Hm'. simpl snd in He'.
  pose proof (round_nearest_even_bounds (shr_m mrs') (loc_of_shr_record mrs'))
    as Hr.
  set (m1 := round_nearest_even (shr_m mrs') (loc_of_shr_record mrs')) in *.
  set (n := Z.max (Z.max (Zdigits2 q + ex - 53) (-1074) - ex) 0) in *.
  assert (Hn : 0 <= n <= -53 - ex) by lia.
  assert (Hp : 0 < 2 ^ n) by (apply pow2_pos; lia).
  assert (Hm1 : 0 <= m1 <= 2 ^ (- e')).
  { assert (0 <= shr_m mrs') by (rewrite Hm'; apply Z.div_pos; lia).
    assert (shr_m mrs' < 2 ^ (- e')).
    { rewrite Hm'. apply Z.div_lt_upper_bound; [exact Hp|].
      rewrite <- pow2_split by lia.
      replace (n + - e') with (- ex) by lia. exact Hlt. }
    lia. }
  destruct (second_shift_at_most_one m1 e') as [[Hlo Hhi] He'']; [lia|exact Hm1|].
  destruct (shr_fexp prec emax m1 e' loc_Exact) as [mrs'' e''].
  simpl fst in *. simpl snd in *.
  destruct (shr_m mrs'') as [|p|p]; simpl; [exact I| |lia].
  destruct (e'' <=? emax - prec) eqn:Hb; simpl.
  - destruct (Z.eq_dec e'' (-52)) as [->|Hne]; [right|left; lia].
    split; [reflexivity|exact Hhi].
  - apply Z.leb_gt in Hb. change (emax - prec) with 971 in Hb. lia.
Qed.


(** Addition and division around one *)

Lemma iter_xO_spec (d mx : positive) :
  Z.pos (Pos.iter xO mx d) = Z.pos mx * 2 ^ Z.pos d.
Proof.
  induction d as [|d IH] using Pos.peano_ind.
  - simpl. lia.
  - rewrite Pos.iter_succ, Pos2Z.inj_xO, IH, Pos2Z.inj_succ.
    rewrite Z.pow_succ_r by lia. ring.
Qed.

Lemma shl_align_spec (mx : positive) (ex ex' : Z) :
  Z.pos (fst (shl_align mx ex ex')) = Z.pos mx * 2 ^ Z.max (ex - ex') 0
  /\ snd (shl_align mx ex ex') = ex - Z.max (ex - ex') 0.
Proof.
  unfold shl_align. destruct (ex' - ex) as [|d|d] eqn:Hd; simpl fst; simpl snd.
  - replace (Z.max (ex - ex') 0) with 0 by lia. simpl. lia.
  - replace (Z.max (ex - ex') 0) with 0 by lia. simpl. lia.
  - replace (Z.max (ex - ex') 0) with (Z.pos d) by lia.
    rewrite iter_xO_spec. lia.
Qed.

Lemma binary_round_at_least_one (m : positive) (ex : Z) :
  ex <= 0 -> 2 ^ (- ex) <= Z.pos m ->
  at_least_one (binary_round prec emax false m ex).
Proof.
  intros Hex Hm. unfold binary_round.
  destruct (shl_align_spec m ex (fexp prec emax (Z.pos (digits2_pos m) + ex)))
    as [Hmz Hez].
  destruct (shl_align m ex _) as [mz ez]. simpl fst in Hmz. simpl snd in Hez.
  set (t := Z.max (ex - fexp prec emax (Z.pos (digits2_pos m) + ex)) 0) in *.
  assert (Ht : 0 <= t) by lia.
  apply round_at_least_one; [lia|].
  rewrite Hmz, Hez. replace (- (ex - t)) with (- ex + t) by lia.
  rewrite pow2_split by lia.
  apply Z.mul_le_mono_nonneg_r; [|exact Hm].
  apply Z.lt_le_incl, pow2_pos, Ht.
Qed.

Lemma one_plus_at_least_one (x : spec_float) :
  nonneg_or_nan x ->
  SF64add (Prim2SF 1) x = S754_nan \/ at_least_one (SF64add (Prim2SF 1) x).
Proof.
  change (Prim2SF 1) with (S754_finite false 4503599627370496 (-52)).
  unfold SF64add, SFadd.
  destruct x as [s|s| |s mx ex]; intros Hx; simpl in Hx; subst.
  - right. simpl. right. split; [reflexivity|]. now vm_compute.
  - right. exact I.
  - left. reflexivity.
  - right. cbv zeta. unfold cond_Zopp.
    set (ez := Z.min (-52) ex).
    destruct (shl_align_spec 4503599627370496 (-52) ez) as [Ha _].
    destruct (shl_align_spec mx ex ez) as [Hb _].
    change (Z.pos ?a + Z.pos ?b) with (Z.pos (a + b)).
    unfold binary_normalize.
    apply binary_round_at_least_one; [lia|].
    rewrite Pos2Z.inj_add, Ha.
    replace (Z.max (-52 - ez) 0) with (-52 - ez) by lia.
    change 4503599627370496 with (2 ^ 52).
    rewrite <- pow2_split by lia.
    replace (52 + (-52 - ez)) with (- ez) by lia. lia.
Qed.

Lemma SFdiv_core_binary_spec (m1 e1 m2 e2 : Z) :
  let e' := Z.min (Z.max (Zdigits2 m1 + e1 - (Zdigits2 m2 + e2) - 53) (-1074))
              (e1 - e2) in
  fst (fst (SFdiv_core_binary prec emax m1 e1 m2 e2))
  = m1 * 2 ^ (e1 - e2 - e') / m2
  /\ snd (fst (SFdiv_core_binary prec emax m1 e1 m2 e2)) = e'.
Proof.
  intros e'. unfold SFdiv_core_binary. cbv zeta.
  change (Z.min (fexp prec emax (Zdigits2 m1 + e1 - (Zdigits2 m2 + e2)))
            (e1 - e2)) with e'.
  assert (Hs : 0 <= e1 - e2 - e') by lia.
  unfold Z.div.
  destruct (e1 - e2 - e') as [|s|s] eqn:Es.
  - rewrite Z.mul_1_r. destruct (Z.div_eucl m1 m2). split; reflexivity.
  - rewrite Z.shiftl_mul_pow2 by lia.
    destruct (Z.div_eucl (m1 * 2 ^ Z.pos s) m2). split; reflexivity.
  - lia.
Qed.

Lemma valid_at_least_one (my : positive) (ey : Z) :
  valid_binary (S754_finite false my ey) = true ->
  at_least_one (S754_finite false my ey) ->
  Zdigits2 (Z.pos my) = 53 /\ -52 <= ey <= 971 /\ 2 ^ 52 <= Z.pos my.
Proof.
  unfold SpecFloat.valid_binary, bounded, canonical_mantissa. simpl at_least_one.
  intros Hv Hy. apply andb_prop in Hv as [Hc Hb].
  apply Z.eqb_eq in Hc. apply Z.leb_le in Hb.
  change (emax - prec) with 971 in Hb.
  change (Z.pos (digits2_pos my)) with (Zdigits2 (Z.pos my)) in Hc.
  unfold fexp, SpecFloat.emin in Hc.
  change prec with 53 in Hc. change emax with 1024 in Hc.
  assert (Hd : Zdigits2 (Z.pos my) = 53) by lia.
  pose proof (Zdigits2_bounds my) as [Hl _]. rewrite Hd in Hl.
  change (53 - 1) with 52 in Hl. lia.
Qed.

Lemma one_over_strict (my : positive) (ey : Z) :
  Zdigits2 (Z.pos my) = 53 -> -52 <= ey <= 971 -> 2 ^ 52 <= Z.pos my ->
  -52 < ey \/ 2 ^ 52 < Z.pos my ->
  at_most_one (SF64div (S754_finite false 4503599627370496 (-52))
                 (S754_finite false my ey)).
Proof.
  intros Hd Hey Hmy Hstrict. unfold SF64div, SFdiv.
  destruct (SFdiv_core_binary_spec (Z.pos 4503599627370496) (-52) (Z.pos my) ey)
    as [Hq He].
  destruct (SFdiv_core_binary prec emax _ _ _ _) as [[mz ez] lz].
  simpl fst in Hq, He. simpl snd in He. simpl xorb.
  rewrite Hd in Hq, He.
  change (Zdigits2 (Z.pos 4503599627370496)) with 53 in Hq, He.
  set (e' := Z.min (Z.max (53 + -52 - (53 + ey) - 53) (-1074)) (-52 - ey)) in *.
  set (s := -52 - ey - e') in *.
  assert (Hs : 0 <= s) by lia.
  assert (Hps : 0 < 2 ^ s) by (apply pow2_pos; exact Hs).
  assert (Hpt : 0 < 2 ^ (52 + ey)) by (apply pow2_pos; lia).
  change (Z.pos 4503599627370496) with (2 ^ 52) in Hq.
  subst mz ez.
  apply round_at_most_one.
  - apply Z.div_pos; [|lia]. apply Z.lt_le_incl, Z.mul_pos_pos; [|exact Hps].
    apply pow2_pos; lia.
  - lia.
  - apply Z.div_lt_upper_bound; [lia|].
    replace (- e') with (s + (52 + ey)) by lia.
    rewrite pow2_split by lia.
    assert (Hkey : 2 ^ 52 < Z.pos my * 2 ^ (52 + ey)).
    { destruct (Z.eq_dec ey (-52)) as [->|Hne].
      - change (2 ^ (52 + -52)) with 1. lia.
      - assert (H2 : 2 ^ (52 + ey) = 2 * 2 ^ (52 + ey - 1)).
        { rewrite <- Z.pow_succ_r by lia. f_equal. lia. }
        assert (0 < 2 ^ (52 + ey - 1)) by (apply pow2_pos; lia).
        rewrite H2. nia. }
    nia.
Qed.

Lemma one_over_at_most_one (y : spec_float) :
  valid_binary y = true -> at_least_one y ->
  at_most_one (SF64div (Prim2SF 1) y).
Proof.
  change (Prim2SF 1) with (S754_finite false 4503599627370496 (-52)).
  destruct y as [s|[|]| |[|] my ey]; simpl at_least_one; intros Hv Hy;
    try contradiction; [exact I|].
  destruct (valid_at_least_one my ey Hv Hy) as (Hd & Hey & Hmy).
  destruct (Z.eq_dec (Z.pos my) (2 ^ 52)) as [Hm|Hm];
    [destruct (Z.eq_dec ey (-52)) as [He|He]|].
  - change (2 ^ 52) with (Z.pos 4503599627370496) in Hm.
    injection Hm as ->. subst ey. vm_compute. right. split; [reflexivity|].
    discriminate.
  - apply one_over_strict; try assumption. lia.
  - apply one_over_strict; try assumption. lia.
Qed.

End Rounding.

Lemma is_nan_of_spec (x : float) :
  Prim2SF x = S754_nan -> PrimFloat.is_nan x = true.
Proof.
  intros Hx. unfold PrimFloat.is_nan. rewrite FloatAxioms.eqb_spec, Hx.
  reflexivity.
Qed.

Lemma at_most_one_leb (t : float) :
  at_most_one (Prim2SF t) ->
  (0 <=? t)%float = true /\ (t <=? 1)%float = true.
Proof.
  rewrite !leb_spec. change (Prim2SF 0) with (S754_zero false).
  change (Prim2SF 1) with (S754_finite false 4503599627370496 (-52)).
  destruct (Prim2SF t) as [s|s| |[|] m ex]; simpl; try contradiction.
  - intros _. split; reflexivity.
  - intros Hle. split; [reflexivity|].
    unfold SFleb, SFcompare.
    destruct Hle as [Hlt|[-> Hm]].
    + destruct (Z.compare_spec ex (-52)); try lia; reflexivity.
    + rewrite Z.compare_refl, Pos.compare_cont_spec.
      destruct (Pos.compare_spec m 4503599627370496) as [H|H|H];
        try reflexivity.
      change (2 ^ 52)%Z with (Z.pos 4503599627370496) in Hm. lia.
Qed.

Lemma ieee_T_unit_or_nan (sinh : float -> float) (V0_ev E_ev w : float) :
  unit_or_nan (ieee_T sinh V0_ev E_ev w).
Proof.
  pose proof (ieee_denominator_nonneg sinh V0_ev E_ev w) as Hx.
  unfold ieee_T. cbv zeta in *.
  destruct (one_plus_at_least_one _ Hx) as [Hn|Hge].
  - left. apply is_nan_of_spec. rewrite div_spec, add_spec, Hn. reflexivity.
  - right. apply at_most_one_leb. rewrite div_spec.
    apply one_over_at_most_one; [apply Prim2SF_valid|].
    rewrite add_spec. exact Hge.
Qed.

Lemma transmission_unit_or_nan (sinh : float -> float)
    (V0_ev E_ev width_nm : Py.num) :
  exists T : Py.num,
    Py.transmission_coefficient sinh V0_ev E_ev width_nm = Py.Ok T
    /\ unit_or_nan (Py.val T).
Proof.
  destruct (Py.lt (Py.mul E_ev (Py.PyFloat Py.e))
              (Py.mul V0_ev (Py.PyFloat Py.e))) eqn:Hlt.
  - rewrite transmission_sub_barrier by assumption.
    eexists. split; [reflexivity|]. apply ieee_T_unit_or_nan.
  - rewrite transmission_not_sub_barrier by assumption.
    eexists. split; [reflexivity|]. right. split; reflexivity.
Qed.

(** ** An electron energy that underflows

    [1e-300] eV is a positive energy below a barrier of 1 eV, but
    [2 * ME * E] underflows to zero in binary64: [k0] is zero and the divisor
    [4 * k0 ** 2] of line 20 is zero, for every width. *)

Lemma tiny_energy_value (sinh : float -> float) (V0_ev width_nm : Py.num) :
  Py.lt (Py.mul (Py.PyFloat 1e-300) (Py.PyFloat Py.e))
        (Py.mul V0_ev (Py.PyFloat Py.e)) = true ->
  exists t : float,
    Py.transmission_coefficient sinh V0_ev (Py.PyFloat 1e-300) width_nm
    = Py.Ok (Py.NpFloat64 t)
    /\ (PrimFloat.is_nan t = true \/ PrimFloat.is_zero t = true).
Proof.
  intros Hlt. rewrite transmission_sub_barrier by assumption.
  eexists. split; [reflexivity|].
  unfold ieee_T, ieee_prefactor. cbv zeta.
  apply zero_energy_result. reflexivity.
Qed.

Lemma nan_or_zero_not_below (a b : float) :
  PrimFloat.is_nan a = true \/ PrimFloat.is_zero a = true ->
  PrimFloat.is_nan b = true \/ PrimFloat.is_zero b = true ->
  (b <? a)%float = false.
Proof.
  rewrite ltb_spec. intros [Ha|Ha] [Hb|Hb].
  - rewrite (is_nan_spec _ Hb). reflexivity.
  - rewrite (is_nan_spec _ Ha). now destruct (Prim2SF b).
  - rewrite (is_nan_spec _ Hb). reflexivity.
  - destruct (is_zero_spec _ Ha) as [sa ->].
    destruct (is_zero_spec _ Hb) as [sb ->]. reflexivity.
Qed.

(** ** The range of the values, and the width going up *)

Lemma zero_leb_zero (a b : float) :
  PrimFloat.is_zero a = true -> PrimFloat.is_zero b = true ->
  (a <=? b)%float = true.
Proof.
  intros Ha Hb. rewrite leb_spec.
  destruct (is_zero_spec _ Ha) as [sa ->].
  destruct (is_zero_spec _ Hb) as [sb ->]. reflexivity.
Qed.

Lemma ieee_T_at_most_vanishing_width (sinh : float -> float)
    (V0_ev E_ev w w0 : float) :
  (forall z : float,
      PrimFloat.is_zero z = true -> PrimFloat.is_zero (sinh z) = true) ->
  PrimFloat.is_zero (w0 * 1e-9)%float = true ->
  PrimFloat.is_nan (ieee_T sinh V0_ev E_ev w) = true
  \/ PrimFloat.is_nan (ieee_T sinh V0_ev E_ev w0) = true
  \/ (ieee_T sinh V0_ev E_ev w <=? ieee_T sinh V0_ev E_ev w0)%float = true.
Proof.
  intros Hsinh Hw0.
  destruct (PrimFloat.is_finite (ieee_prefactor V0_ev E_ev)) eqn:Hfin.
  - rewrite (ieee_T_at_zero_width sinh V0_ev E_ev w0 Hsinh Hw0 Hfin).
    destruct (ieee_T_unit_or_nan sinh V0_ev E_ev w) as [Hn|[_ Hle]]; auto.
  - destruct (ieee_T_without_finite_prefactor sinh V0_ev E_ev w Hfin)
      as [Hn|Hz]; [auto|].
    destruct (ieee_T_without_finite_prefactor sinh V0_ev E_ev w0 Hfin)
      as [Hn0|Hz0]; [auto|].
    right. right. now apply zero_leb_zero.
Qed.




(** ** The value at a vanishing width *)




(** ** The values at a width and at its opposite *)

(** C9 (amended).  Let libm's [sinh] be odd.  Then for every barrier height,
    electron energy and width the calls at [width_nm] and at [- width_nm]
    return the same value (a NaN at both when it is a NaN at one), and this
    value is a NaN or lies in the closed interval from 0 to 1; it need not be
    positive. *)
Theorem transmission_even_for_odd_sinh (sinh : float -> float)
    (V0_ev E_ev width_nm : Py.num) :
  (forall x : float, sinh (- x)%float = (- sinh x)%float) ->
  Py.transmission_coefficient sinh V0_ev E_ev (py_neg width_nm)
  = Py.transmission_coefficient sinh V0_ev E_ev width_nm
  /\ exists T : Py.num,
       Py.transmission_coefficient sinh V0_ev E_ev (py_neg width_nm) = Py.Ok T
       /\ unit_or_nan (Py.val T).
Proof.
  intros Hodd. split; [now apply transmission_even|].
  apply transmission_unit_or_nan.
Qed.

Lemma transmission_even_for_odd_sinh_witness :
  Py.transmission_coefficient (fun x => x)
    (Py.PyFloat 2) (Py.PyFloat 1) (py_neg (Py.PyFloat 1))
  = Py.transmission_coefficient (fun x => x)
      (Py.PyFloat 2) (Py.PyFloat 1) (Py.PyFloat 1)
  /\ exists T : Py.num,
       Py.transmission_coefficient (fun x => x)
         (Py.PyFloat 2) (Py.PyFloat 1) (py_neg (Py.PyFloat 1)) = Py.Ok T
       /\ unit_or_nan (Py.val T).
Proof.
  apply (transmission_even_for_odd_sinh (fun x => x)). intros x. reflexivity.
Defined.

(** At [V0 = 1] eV, [E = 1e-300] eV, inputs with [0 < E < V0], the value at the
    negative width [w = -1] nm is not positive, hence outside the interval
    that is open at 0 and closed at 1, whatever libm's [sinh] returns. *)
Lemma tiny_energy_negative_width_not_positive :
  ((0 <? 1e-300)%float = true /\ (1e-300 <? 1)%float = true)
  /\ ~ (exists (sinh : float -> float) (T : Py.num),
          Py.transmission_coefficient sinh
            (Py.PyFloat 1) (Py.PyFloat 1e-300) (Py.PyFloat (-1)) = Py.Ok T
          /\ (0 <? Py.val T)%float = true /\ (Py.val T <=? 1)%float = true).
Proof.
  split; [split; reflexivity|].
  intros (sinh & T & HT & Hpos & _).
  destruct (tiny_energy_value sinh (Py.PyFloat 1) (Py.PyFloat (-1)) eq_refl)
    as (t & Ht & Hclass).
  rewrite Ht in HT. injection HT as <-. simpl in Hpos.
  destruct (nan_or_zero_is_not_positive t Hclass) as [H0 _]. congruence.
Qed.

(** ** The energy deficit

    The deficit [V0 - E] alone does not order the values (lemma
    [deficit_alone_does_not_order], on the exact reading).  In binary64 the
    order is not strict even at one electron energy: at [E = 1e-300] eV and
    [w = 1] nm the barrier of 2 eV has the larger deficit, and its value is not
    below that of the barrier of 1 eV. *)

Remark tiny_energy_deficit_not_strict :
  ((0 <? 1e-300)%float = true /\ (1e-300 <? 1)%float = true
   /\ (1 - 1e-300 <? 2 - 1e-300)%float = true)
  /\ ~ (exists (sinh : float -> float) (T1 T2 : Py.num),
          Py.transmission_coefficient sinh
            (Py.PyFloat 1) (Py.PyFloat 1e-300) (Py.PyFloat 1) = Py.Ok T1
          /\ Py.transmission_coefficient sinh
               (Py.PyFloat 2) (Py.PyFloat 1e-300) (Py.PyFloat 1) = Py.Ok T2
          /\ (Py.val T2 <? Py.val T1)%float = true).
Proof.
  split; [repeat split; reflexivity|].
  intros (sinh & T1 & T2 & HT1 & HT2 & Hlt).
  destruct (tiny_energy_value sinh (Py.PyFloat 1) (Py.PyFloat 1) eq_refl)
    as (t1 & Ht1 & Hc1).
  destruct (tiny_energy_value sinh (Py.PyFloat 2) (Py.PyFloat 1) eq_refl)
    as (t2 & Ht2 & Hc2).
  rewrite Ht1 in HT1. rewrite Ht2 in HT2.
  injection HT1 as <-. injection HT2 as <-. simpl in Hlt.
  rewrite (nan_or_zero_not_below t1 t2 Hc1 Hc2) in Hlt. discriminate.
Qed.


